(** * Roomba-Kart: the controller tick, its item state machine and the
    Open Interface byte encoding

  A shallow embedding of [controller.py], [controller_functions.py] and
  [controller_constants.py].  Python floats are IEEE binary64 values
  (Rocq's primitive floats), Python ints are [Z], the serial port is an
  explicit device state with a log of the writes, reads and sleeps, and
  an uncaught Python exception is the left summand of a result. *)

From Stdlib Require Import ZArith List Bool Lia String.
From Stdlib Require Import Floats.
Import ListNotations.

Set Warnings "-inexact-float".

Local Open Scope Z_scope.

(** ** Python values and the operators the controller uses *)

Module Py.

(** The exceptions that the modelled statements can raise. *)
Inductive exn : Type :=
| NameError (name : string)
| IndexError
| TypeError
| ValueError
| OverflowError
| ZeroDivisionError.

(** A number is an [int] or a [float]; the tag is what [bytearray]
    looks at. *)
Inductive value : Type :=
| Int (z : Z)
| Float (f : float).

Definition result (A : Type) : Type := (exn + A)%type.

(** int -> float conversion (round to nearest even). *)
Definition float_of_Z (z : Z) : float :=
  SF2Prim (binary_normalize prec emax z 0 false).

(** [int(x)]: truncation towards zero; NaN and the infinities raise. *)
Definition int_of_float (x : float) : result Z :=
  match Prim2SF x with
  | S754_nan => inl ValueError
  | S754_infinity _ => inl OverflowError
  | S754_zero _ => inr 0
  | S754_finite s m e =>
      let a := if 0 <=? e then Z.shiftl (Zpos m) e
               else Z.shiftr (Zpos m) (- e) in
      inr (if s then - a else a)
  end.

(** [math.floor] as a float, exact. *)
Definition float_floor (x : float) : float :=
  match Prim2SF x with
  | S754_finite s m e =>
      if 0 <=? e then x
      else
        let q := Z.shiftr (Zpos m) (- e) in
        let exact := Z.eqb (Z.shiftl q (- e)) (Zpos m) in
        let z := if s then (if exact then - q else - q - 1) else q in
        if (z =? 0) && s then neg_zero else float_of_Z z
  | _ => x
  end.

(** C's [fmod]: the remainder has the sign of the dividend and is
    exact. *)
Definition float_fmod (x y : float) : float :=
  match Prim2SF x, Prim2SF y with
  | S754_nan, _ | _, S754_nan => nan
  | S754_infinity _, _ => nan
  | _, S754_zero _ => nan
  | S754_zero _, _ => x
  | _, S754_infinity _ => x
  | S754_finite sx mx ex, S754_finite _ my ey =>
      let e := Z.min ex ey in
      let r := Z.modulo (Z.shiftl (Zpos mx) (ex - e))
                        (Z.shiftl (Zpos my) (ey - e)) in
      SF2Prim (binary_normalize prec emax (if sx then - r else r) e sx)
  end.

Definition float_is_zero (x : float) : bool := PrimFloat.eqb x 0%float.

Definition copysign (x y : float) : float :=
  if Bool.eqb (get_sign x) (get_sign y) then x else PrimFloat.opp x.

(** CPython's [_float_div_mod], the float case of [//] and [%]. *)
Definition float_div_mod (vx wx : float) : float * float :=
  let mod0 := float_fmod vx wx in
  let div0 := PrimFloat.div (PrimFloat.sub vx mod0) wx in
  let '(md, dv) :=
    if negb (float_is_zero mod0) then
      if negb (Bool.eqb (PrimFloat.ltb wx 0) (PrimFloat.ltb mod0 0))
      then (PrimFloat.add mod0 wx, PrimFloat.sub div0 1)
      else (mod0, div0)
    else (copysign 0 wx, div0) in
  let fl :=
    if negb (float_is_zero dv) then
      let f := float_floor dv in
      if PrimFloat.ltb 0.5 (PrimFloat.sub dv f) then PrimFloat.add f 1
      else f
    else copysign 0 (PrimFloat.div vx wx) in
  (fl, md).

(** [v // d] for an int divisor [d]. *)
Definition floordiv (v : value) (d : Z) : result value :=
  if d =? 0 then inl ZeroDivisionError
  else match v with
       | Int z => inr (Int (z / d))
       | Float f => inr (Float (fst (float_div_mod f (float_of_Z d))))
       end.

(** [v % d] for an int divisor [d]. *)
Definition modulo (v : value) (d : Z) : result value :=
  if d =? 0 then inl ZeroDivisionError
  else match v with
       | Int z => inr (Int (z mod d))
       | Float f => inr (Float (snd (float_div_mod f (float_of_Z d))))
       end.

(** [bytearray(iterable)]: every item must be an int in [range(256)]. *)
Fixpoint bytearray (items : list value) : result (list Z) :=
  match items with
  | [] => inr []
  | Float _ :: _ => inl TypeError
  | Int z :: rest =>
      if (0 <=? z) && (z <? 256) then
        match bytearray rest with
        | inl e => inl e
        | inr bs => inr (z :: bs)
        end
      else inl ValueError
  end.

(** Truthiness of an int. *)
Definition truthy (z : Z) : bool := negb (z =? 0).

End Py.

(** ** controller_constants.py *)

Module cc.
Definition C1_BAUD : Z := 57600.
Definition C2_BAUD : Z := 115200.
Definition FULL_MODE : list Z := [128; 132].
Definition DRIVE : list Py.value := [Py.Int 137].
Definition STOP : list Z := [137; 0; 0; 0; 0].
Definition POLL_BUMPERS_AND_DROPS : list Z := [142; 7].
Definition MAX_VELOCITY_NO_ITEMS : Z := 300.
Definition MAX_VELOCITY_W_SHROOM : Z := 500.
Definition MAX_VELOCITY_W_STAR : Z := 425.
Definition MUSHROOM_DURATION : float := 1.5%float.
Definition STAR_DURATION : float := 6.0%float.
Definition WOBBLE_DURATION : float := 1.2%float.
Definition MIN_RADIUS : Z := -1700.
Definition MAX_RADIUS : Z := 1700.
Definition THRESHOLD : float := 0.07%float.

Inductive item : Type := mushroom | star.
Definition ITEMS : list item := [mushroom; star].
End cc.

(** Sequencing of computations that may raise. *)
Definition try_bind {A B : Type} (r : Py.result A) (k : A -> Py.result B)
  : Py.result B :=
  match r with
  | inl e => inl e
  | inr a => k a
  end.

Notation "x <~ r ;; k" := (try_bind r (fun x => k))
  (at level 61, r at next level, right associativity).

(** ** The serial port and the wall clock of [time.sleep] *)

Module Serial.

(** What the process does to the outside world, in order. *)
Inductive event : Type :=
| Write (data : list Z)
| Read (size : nat) (got : list Z)
| Sleep (seconds : float).

(** [rx] holds, for each coming [read] call, the bytes that the call
    will return (none when the list is exhausted); [log] is the history
    so far, oldest first. *)
Record port : Type := mkPort {
  rx : list (list Z);
  log : list event
}.

Definition emit (e : event) (p : port) : port :=
  {| rx := rx p; log := log p ++ [e] |}.

(** A statement sequence: it runs on the port and either raises or
    returns. *)
Definition M (A : Type) : Type := port -> Py.result A * port.

Definition ret {A : Type} (a : A) : M A := fun p => (inr a, p).

Definition raise {A : Type} (e : Py.exn) : M A := fun p => (inl e, p).

Definition bind {A B : Type} (c : M A) (k : A -> M B) : M B :=
  fun p =>
    match c p with
    | (inl e, p') => (inl e, p')
    | (inr a, p') => k a p'
    end.

Definition lift {A : Type} (r : Py.result A) : M A := fun p => (r, p).

(** [serial_obj.write(data)]. *)
Definition write (data : list Z) : M unit :=
  fun p => (inr tt, emit (Write data) p).

(** [serial_obj.read(size)]: at most [size] bytes. *)
Definition read (size : nat) : M (list Z) :=
  fun p =>
    let got := firstn size (hd [] (rx p)) in
    (inr got, emit (Read size got) {| rx := tl (rx p); log := log p |}).

(** [time.sleep(seconds)]. *)
Definition sleep (seconds : float) : M unit :=
  fun p => (inr tt, emit (Sleep seconds) p).

(** [data[0]]. *)
Definition first_byte (data : list Z) : M Z :=
  match data with
  | [] => raise Py.IndexError
  | b :: _ => ret b
  end.

End Serial.

Notation "x <- c ;; k" := (Serial.bind c (fun x => k))
  (at level 61, c at next level, right associativity).
Notation "c ;; k" := (Serial.bind c (fun _ => k))
  (at level 61, right associativity).

(** ** controller_functions.py *)

Module cf.

(** The names bound at module level in [controller_functions.py]: the
    two imports and the four functions.  [cc] is not among them (the
    module imports one constant under the name [POLL_SENSORS], not the
    constants module), and it is no builtin either. *)
Definition module_names : list string :=
  ["time"; "POLL_SENSORS"; "detect_front_collision";
   "apply_forward_velocity"; "apply_backward_velocity";
   "apply_turning_radius"]%string.

(** Evaluating a global name inside a function of this module. *)
Definition load_name (name : string) : Serial.M unit :=
  if existsb (String.eqb name) module_names then Serial.ret tt
  else Serial.raise (Py.NameError name).

Definition WOBBLE_LEFT : list Z := [137; 255; 176; 0; 50].
Definition WOBBLE_RIGHT : list Z := [137; 255; 176; 255; 205].

(** The loop [for x in range(n)] of [detect_front_collision]. *)
Fixpoint wobble (n : nat) (wobble_duration : float) : Serial.M unit :=
  match n with
  | O => Serial.ret tt
  | S k =>
      Serial.write WOBBLE_LEFT ;;
      Serial.sleep (wobble_duration / Py.float_of_Z 6) ;;
      Serial.write WOBBLE_RIGHT ;;
      Serial.sleep (wobble_duration / Py.float_of_Z 6) ;;
      wobble k wobble_duration
  end.

(** [detect_front_collision(serial_obj, used_invincibility_item,
    wobble_duration)].  Its first statement evaluates [cc.POLL_SENSORS];
    the poll command written afterwards is the constant that the
    module's import binds. *)
Definition detect_front_collision (used_invincibility_item : bool)
    (wobble_duration : float) : Serial.M unit :=
  load_name "cc" ;;
  Serial.write cc.POLL_BUMPERS_AND_DROPS ;;
  data <- Serial.read 1 ;;
  b <- Serial.first_byte data ;;
  let bumper_depressed := Z.land b 3 in
  if Py.truthy bumper_depressed && negb used_invincibility_item
  then wobble 3 wobble_duration
  else Serial.ret tt.

(** [int((trigger_value + 1) / 2 * given_max_velocity)]. *)
Definition apply_forward_velocity (given_max_velocity : Z)
    (trigger_value : float) : Py.result Z :=
  Py.int_of_float
    ((trigger_value + Py.float_of_Z 1) / Py.float_of_Z 2
     * Py.float_of_Z given_max_velocity)%float.

(** [-(int((trigger_value + 1) / 2 * given_max_velocity))]. *)
Definition apply_backward_velocity (given_max_velocity : Z)
    (trigger_value : float) : Py.result Z :=
  v <~ Py.int_of_float
         ((trigger_value + Py.float_of_Z 1) / Py.float_of_Z 2
          * Py.float_of_Z given_max_velocity)%float ;;
  inr (- v).

(** The radius of the [else] branch of [apply_turning_radius]. *)
Definition turning_radius (stick_x_pos given_threshold : float)
    (min_rad max_rad : Z) : Py.result Z :=
  if (0 <? stick_x_pos)%float then
    Py.int_of_float
      (Py.float_of_Z min_rad
       * (Py.float_of_Z 1 - stick_x_pos + given_threshold))%float
  else
    Py.int_of_float
      (Py.float_of_Z max_rad
       * (Py.float_of_Z 1 + stick_x_pos + given_threshold))%float.

(** [[(rad // 256) % 256] + [rad % 256]]. *)
Definition byte_pair (rad : Z) : list Py.value :=
  [Py.Int ((rad / 256) mod 256)] ++ [Py.Int (rad mod 256)].

(** [apply_turning_radius(stick_x_pos, given_threshold, min_rad,
    max_rad)]. *)
Definition apply_turning_radius (stick_x_pos given_threshold : float)
    (min_rad max_rad : Z) : Py.result (list Py.value) :=
  if (stick_x_pos =? 0)%float then inr [Py.Int 128; Py.Int 0]
  else
    rad <~ turning_radius stick_x_pos given_threshold min_rad max_rad ;;
    inr (byte_pair rad).

End cf.

(** ** controller.py *)

Module controller.

(** The module-level variables that survive from one iteration to the
    next.  [time_item_used] is unbound until an item is used. *)
Record globals : Type := mkGlobals {
  has_mushroom : bool;
  has_star : bool;
  used_mushroom : bool;
  used_star : bool;
  elapsed_time : float;
  time_item_used : option float
}.

(** The values assigned under "Initialize Item Related Variables". *)
Definition initial : globals :=
  {| has_mushroom := false; has_star := false;
     used_mushroom := false; used_star := false;
     elapsed_time := 0; time_item_used := None |}.

(** What the outside world supplies to one pass over the body of
    [for controller in controllers.values()]: the pad's axes and
    button, the outcome of [random.choice(cc.ITEMS)] (looked at only
    when a wheel dropped) and the readings of [time.time()] in the item
    usage block and in the item effects block. *)
Record sample : Type := mkSample {
  axis0 : float;
  axis5 : float;
  axis2 : float;
  button0 : bool;
  random_choice : cc.item;
  time_at_use : float;
  time_at_effects : float
}.

Definition item_eqb (a b : cc.item) : bool :=
  match a, b with
  | cc.mushroom, cc.mushroom | cc.star, cc.star => true
  | _, _ => false
  end.

(** "Poll Sticks": the stick position after the drift guard. *)
Definition poll_sticks (c : sample) : float :=
  let lstick_horiz_pos := axis0 c in
  if (abs lstick_horiz_pos <? cc.THRESHOLD)%float then 0%float
  else lstick_horiz_pos.

(** "Poll Triggers": [(driving_forward, driving_backward)]. *)
Definition poll_triggers (c : sample) : bool * bool :=
  let right_trigger_value := axis5 c in
  let left_trigger_value := axis2 c in
  if (cc.THRESHOLD <? right_trigger_value + 1.0)%float then (true, false)
  else if (cc.THRESHOLD <? left_trigger_value + 1.0)%float then (false, true)
  else (false, false).

(** "Item Generation": the [if wheel_dropped:] statement. *)
Definition item_generation (wheel_dropped : Z) (generated_item : cc.item)
    (g : globals) : globals :=
  let has_item := has_mushroom g || has_star g in
  if Py.truthy wheel_dropped then
    if item_eqb generated_item cc.mushroom && negb has_item then
      {| has_mushroom := true; has_star := has_star g;
         used_mushroom := used_mushroom g; used_star := used_star g;
         elapsed_time := elapsed_time g;
         time_item_used := time_item_used g |}
    else if item_eqb generated_item cc.star && negb has_item then
      {| has_mushroom := has_mushroom g; has_star := true;
         used_mushroom := used_mushroom g; used_star := used_star g;
         elapsed_time := elapsed_time g;
         time_item_used := time_item_used g |}
    else g
  else g.

(** "Item Usage": the [if has_mushroom and used_item:] statement. *)
Definition item_usage (used_item : bool) (now : float) (g : globals)
  : globals :=
  if has_mushroom g && used_item then
    {| has_mushroom := false; has_star := has_star g;
       used_mushroom := true; used_star := used_star g;
       elapsed_time := elapsed_time g;
       time_item_used := Some now |}
  else if has_star g && used_item then
    {| has_mushroom := has_mushroom g; has_star := false;
       used_mushroom := used_mushroom g; used_star := true;
       elapsed_time := elapsed_time g;
       time_item_used := Some now |}
  else g.

(** Reading the variable [time_item_used]. *)
Definition load_time_item_used (g : globals) : Py.result float :=
  match time_item_used g with
  | Some t => inr t
  | None => inl (Py.NameError "time_item_used")
  end.

(** The trigger-proportional velocity for a given ceiling: the
    [if driving_forward: ... elif driving_backward: ...] statement that
    the star branch and the no-item branch share; at rest the velocity
    keeps the value [0.0] it was given at the top of the block. *)
Definition trigger_velocity (max_velocity : Z)
    (driving_forward driving_backward : bool)
    (right_trigger_value left_trigger_value : float)
  : Py.result Py.value :=
  if driving_forward then
    v <~ cf.apply_forward_velocity max_velocity right_trigger_value ;;
    inr (Py.Int v)
  else if driving_backward then
    v <~ cf.apply_backward_velocity max_velocity left_trigger_value ;;
    inr (Py.Int v)
  else inr (Py.Float 0).

Definition set_elapsed_time (t : float) (g : globals) : globals :=
  {| has_mushroom := has_mushroom g; has_star := has_star g;
     used_mushroom := used_mushroom g; used_star := used_star g;
     elapsed_time := t; time_item_used := time_item_used g |}.

Definition clear_used_mushroom (g : globals) : globals :=
  {| has_mushroom := has_mushroom g; has_star := has_star g;
     used_mushroom := false; used_star := used_star g;
     elapsed_time := elapsed_time g;
     time_item_used := time_item_used g |}.

Definition clear_used_star (g : globals) : globals :=
  {| has_mushroom := has_mushroom g; has_star := has_star g;
     used_mushroom := used_mushroom g; used_star := false;
     elapsed_time := elapsed_time g;
     time_item_used := time_item_used g |}.

(** "Item Effects and Duration": from [velocity = 0.0] to the end of the
    [if used_mushroom or used_star: ... else: ...] statement.  Returns
    the velocity and the updated variables. *)
Definition item_effects (driving_forward driving_backward : bool)
    (right_trigger_value left_trigger_value : float) (now : float)
    (g : globals) : Py.result (Py.value * globals) :=
  let velocity := Py.Float 0 in
  if used_mushroom g || used_star g then
    if used_mushroom g && (elapsed_time g <? cc.MUSHROOM_DURATION)%float then
      t <~ load_time_item_used g ;;
      inr (Py.Int cc.MAX_VELOCITY_W_SHROOM, set_elapsed_time (now - t) g)
    else if used_mushroom g
            && (cc.MUSHROOM_DURATION <? elapsed_time g)%float then
      inr (velocity, clear_used_mushroom g)
    else if used_star g && (elapsed_time g <? cc.STAR_DURATION)%float then
      v <~ trigger_velocity cc.MAX_VELOCITY_W_STAR
             driving_forward driving_backward
             right_trigger_value left_trigger_value ;;
      t <~ load_time_item_used g ;;
      inr (v, set_elapsed_time (now - t) g)
    else if used_star g && (cc.STAR_DURATION <? elapsed_time g)%float then
      inr (velocity, clear_used_star g)
    else inr (velocity, g)
  else
    v <~ trigger_velocity cc.MAX_VELOCITY_NO_ITEMS
           driving_forward driving_backward
           right_trigger_value left_trigger_value ;;
    inr (v, set_elapsed_time 0 g).

(** "Final Velocity Byte Calculation":
    [[(velocity // 256) % 256] + [velocity % 256]]. *)
Definition velocity_bytes (velocity : Py.value)
  : Py.result (list Py.value) :=
  q <~ Py.floordiv velocity 256 ;;
  hi <~ Py.modulo q 256 ;;
  lo <~ Py.modulo velocity 256 ;;
  inr ([hi] ++ [lo]).

(** "Drive Roomba":
    [roomba.write(bytearray(cc.DRIVE + velocity_bytes + radius_bytes))]. *)
Definition drive (velocity_bytes radius_bytes : list Py.value)
  : Serial.M unit :=
  packet <- Serial.lift
              (Py.bytearray (cc.DRIVE ++ velocity_bytes ++ radius_bytes)) ;;
  Serial.write packet.

(** One pass over the body of [for controller in controllers.values()]. *)
Definition tick (using_wobble : bool) (c : sample) (g : globals)
  : Serial.M globals :=
  (if using_wobble
   then cf.detect_front_collision (used_star g) cc.WOBBLE_DURATION
   else Serial.ret tt) ;;
  let lstick_horiz_pos := poll_sticks c in
  let right_trigger_value := axis5 c in
  let left_trigger_value := axis2 c in
  let '(driving_forward, driving_backward) := poll_triggers c in
  let used_item := button0 c in
  Serial.write cc.POLL_BUMPERS_AND_DROPS ;;
  data <- Serial.read 1 ;;
  b <- Serial.first_byte data ;;
  let wheel_dropped := Z.land b 12 in
  let g := item_generation wheel_dropped (random_choice c) g in
  let g := item_usage used_item (time_at_use c) g in
  vg <- Serial.lift
          (item_effects driving_forward driving_backward
             right_trigger_value left_trigger_value
             (time_at_effects c) g) ;;
  let '(velocity, g) := vg in
  vbytes <- Serial.lift (velocity_bytes velocity) ;;
  radius_bytes <- Serial.lift
                    (cf.apply_turning_radius lstick_horiz_pos cc.THRESHOLD
                       cc.MIN_RADIUS cc.MAX_RADIUS) ;;
  drive vbytes radius_bytes ;;
  Serial.ret g.

(** The main loop over successive passes, one sample per pass.  An
    exception is caught nowhere, so the first one ends the run. *)
Fixpoint run (using_wobble : bool) (samples : list sample) (g : globals)
  : Serial.M globals :=
  match samples with
  | [] => Serial.ret g
  | c :: rest =>
      g' <- tick using_wobble c g ;;
      run using_wobble rest g'
  end.

End controller.

(** ** The wire format as the interface document words it *)

Module Wire.

(** The 16-bit two's-complement pattern of a signed value. *)
Definition twos_complement16 (v : Z) : Z :=
  if v <? 0 then 65536 + v else v.

(** Big-endian: the high byte goes first. *)
Definition big_endian16 (u : Z) : list Z :=
  [Z.shiftr u 8; Z.land u 255].

Definition encode16 (v : Z) : list Z :=
  big_endian16 (twos_complement16 v).

(** Reading a byte pair back as a signed 16-bit value. *)
Definition decode16 (hi lo : Z) : Z :=
  let u := hi * 256 + lo in
  if u <? 32768 then u else u - 65536.

Definition signed16 (v : Z) : Prop := -32768 <= v <= 32767.

(** The reserved radius of "drive straight". *)
Definition STRAIGHT : list Py.value := [Py.Int 128; Py.Int 0].

End Wire.

(** ** Measuring a log *)

Module Trace.

Definition is_poll (e : Serial.event) : bool :=
  match e with
  | Serial.Write data =>
      if list_eq_dec Z.eq_dec data cc.POLL_BUMPERS_AND_DROPS
      then true else false
  | _ => false
  end.

Definition is_read (e : Serial.event) : bool :=
  match e with
  | Serial.Read _ _ => true
  | _ => false
  end.

Definition is_drive (e : Serial.event) : bool :=
  match e with
  | Serial.Write (137 :: _) => true
  | _ => false
  end.

Definition polls (l : list Serial.event) : nat :=
  List.length (filter is_poll l).

Definition reads (l : list Serial.event) : nat :=
  List.length (filter is_read l).

Definition drives (l : list Serial.event) : nat :=
  List.length (filter is_drive l).

Definition is_sleep (e : Serial.event) : bool :=
  match e with
  | Serial.Sleep _ => true
  | _ => false
  end.

Definition sleeps (l : list Serial.event) : nat :=
  List.length (filter is_sleep l).

(** One half-step of the wobble: a write and the pause after it. *)
Definition half_step (command : list Z) (pause : float)
  : list Serial.event :=
  [Serial.Write command; Serial.Sleep pause].

(** [n] full steps of the wobble. *)
Fixpoint wobble_steps (n : nat) (pause : float) : list Serial.event :=
  match n with
  | O => []
  | S k =>
      half_step cf.WOBBLE_LEFT pause ++ half_step cf.WOBBLE_RIGHT pause
      ++ wobble_steps k pause
  end.

End Trace.

(** ** The pass in stages *)

Module Stage.

(** Reachable variables: once an item has been used, the time of use
    is bound. *)
Definition time_bound (g : controller.globals) : Prop :=
  controller.used_mushroom g || controller.used_star g = true ->
  controller.time_item_used g <> None.

(** The variables after "Item Generation and Usage", given the sensor
    byte [b] of this pass. *)
Definition after_items (c : controller.sample) (g : controller.globals)
    (b : Z) : controller.globals :=
  controller.item_usage (controller.button0 c) (controller.time_at_use c)
    (controller.item_generation (Z.land b 12) (controller.random_choice c) g).

(** Everything the pass computes after the sensor byte [b] is in: the
    drive packet and the variables for the next pass. *)
Definition drive_packet (c : controller.sample) (g : controller.globals)
    (b : Z) : Py.result (list Z * controller.globals) :=
  let '(driving_forward, driving_backward) := controller.poll_triggers c in
  vg <~ controller.item_effects driving_forward driving_backward
          (controller.axis5 c) (controller.axis2 c)
          (controller.time_at_effects c) (after_items c g b) ;;
  let '(velocity, g') := vg in
  vbytes <~ controller.velocity_bytes velocity ;;
  radius_bytes <~ cf.apply_turning_radius (controller.poll_sticks c)
                    cc.THRESHOLD cc.MIN_RADIUS cc.MAX_RADIUS ;;
  packet <~ Py.bytearray (cc.DRIVE ++ vbytes ++ radius_bytes) ;;
  inr (packet, g').

(** The port after the poll of the main loop and its answer. *)
Definition polled (p : Serial.port) : Serial.port :=
  {| Serial.rx := tl (Serial.rx p);
     Serial.log :=
       Serial.log p
       ++ [Serial.Write cc.POLL_BUMPERS_AND_DROPS;
           Serial.Read 1 (firstn 1 (hd [] (Serial.rx p)))] |}.

(** A series of wheel-drop events, each with the item drawn for it. *)
Definition wheel_drops (events : list (Z * cc.item))
    (g : controller.globals) : controller.globals :=
  fold_left
    (fun g e => controller.item_generation (fst e) (snd e) g) events g.

(** The item in hand. *)
Definition held (g : controller.globals) : option cc.item :=
  if controller.has_mushroom g then Some cc.mushroom
  else if controller.has_star g then Some cc.star
  else None.

End Stage.

(** ** Binary64 arithmetic on scaled integers

    A non-negative binary64 value [m * 2^e] is followed through the
    radius formula as the integer [m * 2^(e + scale)]; [scale] is
    large enough for every exponent that binary64 and its exact
    products can have. *)

Module Round.

Definition scale : Z := 2200.

(** Round [a / 2^k] to the nearest integer, ties to even. *)
Definition rz (a k : Z) : Z :=
  if k <=? 0 then a
  else
    let q := a / 2 ^ k in
    let r := a mod 2 ^ k in
    let h := 2 ^ (k - 1) in
    if r <? h then q
    else if h <? r then q + 1
    else if Z.even q then q else q + 1.

(** The exponent of the last place of a scaled value. *)
Definition cexp (v : Z) : Z :=
  fexp prec emax (Zdigits2 v - scale) + scale.

(** The scaled value rounded to binary64. *)
Definition rv (v : Z) : Z := rz v (cexp v) * 2 ^ cexp v.

End Round.

Module SFVal.
Import Round.

(** The scaled value of a non-negative binary64 datum. *)
Definition SFV (r : spec_float) : Z :=
  match r with
  | S754_finite false m e => Zpos m * 2 ^ (e + scale)
  | _ => 0
  end.

(** [+0] or a positive finite number. *)
Definition nonneg (r : spec_float) : Prop :=
  match r with
  | S754_zero false => True
  | S754_finite false m e => -1074 <= e
  | _ => False
  end.

End SFVal.

Module Radius.
Import Round SFVal.

(** The scaled values of 1.0 and of the threshold. *)
Definition one : Z := SFV (Prim2SF 1).
Definition threshold : Z := SFV (Prim2SF cc.THRESHOLD).

(** The magnitude of the radius as a function of the scaled value of
    the stick's magnitude. *)
Definition magnitude (v : Z) : Z :=
  rv (1700 * rv (rv (one - v) + threshold)) / 2 ^ scale.

End Radius.

(** ** The item in hand *)

Module Held.

(** At most one item is in hand. *)
Definition one_item (g : controller.globals) : Prop :=
  controller.has_mushroom g && controller.has_star g = false.

End Held.

(** ** controller.py: the event loop around the passes *)

Module loop.

(** The events of [pygame.event.get()] that the loop tells apart.  A
    [JOYDEVICEADDED] event is given by the instance id that the
    [Joystick] made from its device index reports; every other type of
    event is [OTHER]. *)
Inductive event : Type :=
| QUIT
| JOYDEVICEADDED (instance_id : Z)
| JOYDEVICEREMOVED (instance_id : Z)
| OTHER.

(** How the process can end: [sys.exit()], a [KeyError] of the
    [controllers] dict, or an exception of the passes. *)
Inductive ending : Type :=
| SystemExit
| KeyError (key : Z)
| Uncaught (e : Py.exn).

Definition L (A : Type) : Type := Serial.port -> (ending + A) * Serial.port.

Definition ret {A : Type} (a : A) : L A := fun p => (inr a, p).

Definition stop {A : Type} (e : ending) : L A := fun p => (inl e, p).

Definition bind {A B : Type} (c : L A) (k : A -> L B) : L B :=
  fun p =>
    match c p with
    | (inl e, p') => (inl e, p')
    | (inr a, p') => k a p'
    end.

(** A statement sequence of the passes, run inside the loop. *)
Definition lift {A : Type} (c : Serial.M A) : L A :=
  fun p =>
    match c p with
    | (inl e, p') => (inl (Uncaught e), p')
    | (inr a, p') => (inr a, p')
    end.

(** The names that [controller.py] binds at module level, by an
    import, an assignment or a [for].  [printf] is not among them, and
    it is no builtin. *)
Definition module_names : list string :=
  ["cc"; "cf"; "pygame"; "random"; "serial"; "sys"; "time";
   "given_baudrate"; "input_model"; "given_port"; "roomba"; "choice";
   "using_wobble"; "has_mushroom"; "has_star"; "used_mushroom";
   "used_star"; "elapsed_time"; "controllers"; "event"; "joy";
   "controller"; "lstick_horiz_pos"; "right_trigger_value";
   "left_trigger_value"; "driving_forward"; "driving_backward";
   "x_button_depressed"; "used_item"; "wheel_dropped"; "has_item";
   "generated_item"; "time_item_used"; "velocity"; "velocity_bytes";
   "radius_bytes"]%string.

(** Evaluating a global name at module level. *)
Definition load_name (name : string) : L unit :=
  if existsb (String.eqb name) module_names then ret tt
  else stop (Uncaught (Py.NameError name)).

(** The dict [controllers], by its keys in insertion order (the value
    under a key is the joystick of that instance id). *)
Definition connected : Type := list Z.

(** [controllers[key] = joy]. *)
Definition setitem (key : Z) (controllers : connected) : connected :=
  if existsb (Z.eqb key) controllers then controllers
  else controllers ++ [key].

(** [del controllers[key]]. *)
Definition delitem (key : Z) (controllers : connected) : L connected :=
  if existsb (Z.eqb key) controllers
  then ret (filter (fun k => negb (Z.eqb key k)) controllers)
  else stop (KeyError key).

(** The body of [for event in pygame.event.get()]. *)
Definition handle (ev : event) (controllers : connected) : L connected :=
  match ev with
  | QUIT =>
      bind (lift (Serial.write cc.STOP)) (fun _ => stop SystemExit)
  | JOYDEVICEADDED instance_id => ret (setitem instance_id controllers)
  | JOYDEVICEREMOVED instance_id =>
      bind (lift (Serial.write cc.STOP)) (fun _ =>
      bind (delitem instance_id controllers) (fun controllers' =>
      bind (load_name "printf") (fun _ => ret controllers')))
  | OTHER => ret controllers
  end.

Fixpoint handle_all (events : list event) (controllers : connected)
  : L connected :=
  match events with
  | [] => ret controllers
  | ev :: rest => bind (handle ev controllers) (handle_all rest)
  end.

(** What the outside world supplies to one iteration of [while True]:
    the pending events, and for each instance id the sample that its
    pad gives when it is read. *)
Record turn : Type := mkTurn {
  events : list event;
  pads : Z -> controller.sample
}.

(** One iteration of [while True]: the events, then one pass per
    connected controller, in the order of the dict. *)
Definition iteration (using_wobble : bool) (t : turn)
    (st : connected * controller.globals)
  : L (connected * controller.globals) :=
  bind (handle_all (events t) (fst st)) (fun controllers =>
  bind (lift (controller.run using_wobble (map (pads t) controllers)
                (snd st))) (fun g =>
  ret (controllers, g))).

(** The loop over successive iterations. *)
Fixpoint main_loop (using_wobble : bool) (turns : list turn)
    (st : connected * controller.globals)
  : L (connected * controller.globals) :=
  match turns with
  | [] => ret st
  | t :: rest =>
      bind (iteration using_wobble t st) (main_loop using_wobble rest)
  end.

(** From the 'Full' mode command on: the mode command, its one second
    of settling, the item variables and the loop. *)
Definition program (using_wobble : bool) (turns : list turn)
  : L (connected * controller.globals) :=
  bind (lift (Serial.bind (Serial.write cc.FULL_MODE)
                (fun _ => Serial.sleep (Py.float_of_Z 1)))) (fun _ =>
  main_loop using_wobble turns ([], controller.initial)).

(** Events that neither end the process nor touch the port. *)
Definition quiet (ev : event) : bool :=
  match ev with
  | JOYDEVICEADDED _ | OTHER => true
  | _ => false
  end.

(** The dict after a series of quiet events. *)
Definition plugged (evs : list event) (controllers : connected)
  : connected :=
  fold_left
    (fun d ev =>
       match ev with
       | JOYDEVICEADDED instance_id => setitem instance_id d
       | _ => d
       end) evs controllers.

(** The port once the stop command is sent. *)
Definition stopped (p : Serial.port) : Serial.port :=
  Serial.emit (Serial.Write cc.STOP) p.

(** The port once the mode command is sent and its pause is over. *)
Definition started (p : Serial.port) : Serial.port :=
  Serial.emit (Serial.Sleep (Py.float_of_Z 1))
    (Serial.emit (Serial.Write cc.FULL_MODE) p).

End loop.

(** ** The ways the program ends *)

Module Ending.
Import loop.

(** The endings that an event brings about. *)
Definition by_event (e : ending) : Prop :=
  e = SystemExit \/ (exists key, e = KeyError key)
  \/ e = Uncaught (Py.NameError "printf").

(** The endings that a pass brings about. *)
Definition by_pass (using_wobble : bool) (e : ending) : Prop :=
  if using_wobble then e = Uncaught (Py.NameError "cc")
  else e = Uncaught Py.IndexError \/ e = Uncaught Py.ValueError
       \/ e = Uncaught Py.OverflowError \/ e = Uncaught Py.TypeError.

End Ending.

(** ** The trigger formula in binary64 *)

Module Velocity.
Import Round SFVal.

(** A trigger axis within its range, from -1 (released) to 1. *)
Definition axis (r : spec_float) : Prop :=
  match r with
  | S754_zero _ => True
  | S754_finite _ m e => SFV (S754_finite false m e) <= Radius.one
  | _ => False
  end.

(** The scaled value of [trigger_value + 1]. *)
Definition raised (r : spec_float) : Z :=
  match r with
  | S754_finite true m e => rv (Radius.one - SFV (S754_finite false m e))
  | _ => rv (SFV r + Radius.one)
  end.

(** The speed under the ceiling [C], from the scaled value of
    [trigger_value + 1]. *)
Definition speed (C u : Z) : Z := rv (C * (u / 2)) / 2 ^ scale.

(** The ceilings that the loop passes to the velocity functions. *)
Definition ceiling (C : Z) : Prop :=
  C = cc.MAX_VELOCITY_NO_ITEMS \/ C = cc.MAX_VELOCITY_W_STAR.

End Velocity.

(** ** The end of an effect *)

Module Expiry.

(** The pass finds an effect past its duration: the state on which the
    item-effects block takes one of its two expiry branches. *)
Definition due (g : controller.globals) : bool :=
  controller.used_mushroom g
  && (cc.MUSHROOM_DURATION <? controller.elapsed_time g)%float
  || negb (controller.used_mushroom g)
     && controller.used_star g
     && (cc.STAR_DURATION <? controller.elapsed_time g)%float.

End Expiry.

(** * Properties *)

(** ** Order facts on binary64 values *)

Section FloatOrder.

Lemma SFcompare_swap (a b : spec_float) :
  SFcompare b a = option_map CompOpp (SFcompare a b).
Proof.
  destruct a as [sa|sa| |sa ma ea], b as [sb|sb| |sb mb eb]; cbn;
    try destruct sa; try destruct sb; cbn; try reflexivity;
    rewrite (Z.compare_antisym ea eb);
    destruct (ea ?= eb); cbn; try reflexivity;
    rewrite !Pos.compare_cont_spec; cbn;
    rewrite (Pos.compare_antisym ma mb);
    destruct (ma ?= mb)%positive; reflexivity.
Qed.

Lemma ltb_asym (x y : float) :
  (x <? y)%float = true -> (y <? x)%float = false.
Proof.
  rewrite !ltb_spec. unfold SFltb.
  rewrite (SFcompare_swap (Prim2SF x) (Prim2SF y)).
  destruct (SFcompare (Prim2SF x) (Prim2SF y)) as [[| |]|]; cbn;
    congruence.
Qed.

(** Among floats that are not NaN the order is total. *)
Lemma leb_total (x y z : float) :
  (x <=? z)%float = true -> (y <=? y)%float = true ->
  (x <? y)%float = false -> (y <=? x)%float = true.
Proof.
  rewrite !leb_spec, ltb_spec. unfold SFleb, SFltb.
  rewrite (SFcompare_swap (Prim2SF x) (Prim2SF y)).
  intros X Y L.
  assert (Nx : Prim2SF x <> S754_nan).
  { intro E. rewrite E in X. discriminate X. }
  assert (Ny : Prim2SF y <> S754_nan).
  { intro E. rewrite E in Y. discriminate Y. }
  assert (C : exists c, SFcompare (Prim2SF x) (Prim2SF y) = Some c).
  { destruct (Prim2SF x) as [sx|sx| |sx mx ex]; try congruence;
      destruct (Prim2SF y) as [sy|sy| |sy my ey]; try congruence;
      cbn; eauto;
      try (destruct sx; eauto); try (destruct sy; eauto). }
  destruct C as [c C]. rewrite C in *.
  destruct c; cbn; congruence.
Qed.

End FloatOrder.

(** ** Binary64 rounding, operation by operation *)

Section RoundZ.
Import Round.

Lemma pow2_pos (k : Z) : 0 <= k -> 0 < 2 ^ k.
Proof. intro H. apply Z.pow_pos_nonneg; lia. Qed.

Lemma pow2_half (k : Z) : 0 < k -> 2 ^ k = 2 * 2 ^ (k - 1).
Proof.
  intro H. replace k with (1 + (k - 1)) at 1 by lia.
  rewrite Z.pow_add_r by lia. reflexivity.
Qed.

Lemma rz_mono (a b k : Z) : a <= b -> rz a k <= rz b k.
Proof.
  intro H. unfold rz.
  destruct (Z.leb_spec k 0) as [K|K]; [exact H|].
  pose proof (pow2_half k K) as P.
  pose proof (pow2_pos (k - 1) ltac:(lia)) as Hh.
  set (h := 2 ^ (k - 1)) in *. rewrite P.
  assert (D : a / (2 * h) <= b / (2 * h)) by (apply Z.div_le_mono; lia).
  pose proof (Z.div_mod a (2 * h) ltac:(lia)) as Ea.
  pose proof (Z.div_mod b (2 * h) ltac:(lia)) as Eb.
  pose proof (Z.mod_pos_bound a (2 * h) ltac:(lia)) as Ba.
  pose proof (Z.mod_pos_bound b (2 * h) ltac:(lia)) as Bb.
  set (qa := a / (2 * h)) in *. set (qb := b / (2 * h)) in *.
  set (ra := a mod (2 * h)) in *. set (rb := b mod (2 * h)) in *.
  assert (C : qa = qb \/ qa + 1 <= qb) by lia.
  destruct C as [C|C].
  - assert (ra <= rb) by nia. rewrite C in *.
    destruct (Z.ltb_spec ra h), (Z.ltb_spec rb h), (Z.ltb_spec h ra),
      (Z.ltb_spec h rb), (Z.even qb); lia.
  - destruct (Z.ltb_spec ra h), (Z.ltb_spec rb h), (Z.ltb_spec h ra),
      (Z.ltb_spec h rb), (Z.even qa), (Z.even qb); lia.
Qed.

Lemma rz_exact (n k : Z) : 0 <= k -> rz (n * 2 ^ k) k = n.
Proof.
  intro K. unfold rz.
  destruct (Z.leb_spec k 0) as [K0|K0].
  - assert (k = 0) by lia. subst k. cbn. lia.
  - pose proof (pow2_pos k K) as P.
    rewrite Z.div_mul by lia. rewrite Z.mod_mul by lia.
    pose proof (pow2_pos (k - 1) ltac:(lia)) as Hh.
    destruct (Z.ltb_spec 0 (2 ^ (k - 1))); lia.
Qed.

Lemma rz_shift (a k j : Z) :
  0 <= k -> 0 <= j -> rz (a * 2 ^ j) (k + j) = rz a k.
Proof.
  intros K J.
  destruct (Z.eq_dec k 0) as [->|K0].
  - cbn [Z.add]. rewrite rz_exact by lia. reflexivity.
  - unfold rz.
    destruct (Z.leb_spec (k + j) 0); [lia|].
    destruct (Z.leb_spec k 0); [lia|].
    pose proof (pow2_pos j J) as Pj.
    pose proof (pow2_pos k K) as Pk.
    pose proof (pow2_pos (k - 1) ltac:(lia)) as Ph.
    rewrite (Z.pow_add_r 2 k j) by lia.
    rewrite Z.div_mul_cancel_r by lia.
    rewrite Z.mul_mod_distr_r by lia.
    replace (k + j - 1) with ((k - 1) + j) by lia.
    rewrite (Z.pow_add_r 2 (k - 1) j) by lia.
    set (r := a mod 2 ^ k). set (h := 2 ^ (k - 1)) in *.
    set (t := 2 ^ j) in *.
    destruct (Z.ltb_spec (r * t) (h * t)), (Z.ltb_spec r h); try nia;
      destruct (Z.ltb_spec (h * t) (r * t)), (Z.ltb_spec h r); try nia;
      reflexivity.
Qed.

Lemma rz_nonneg (a k : Z) : 0 <= a -> 0 <= rz a k.
Proof.
  intro H. pose proof (rz_mono 0 a k H) as M.
  assert (Z0 : rz 0 k = 0).
  { unfold rz. destruct (Z.leb_spec k 0); [reflexivity|].
    rewrite Z.div_0_l, Z.mod_0_l
      by (apply Z.pow_nonzero; lia).
    pose proof (pow2_pos (k - 1) ltac:(lia)).
    destruct (Z.ltb_spec 0 (2 ^ (k - 1))); lia. }
  lia.
Qed.

End RoundZ.

Section Digits.
Import Round.

Lemma digits2_pos_size (p : positive) : digits2_pos p = Pos.size p.
Proof. induction p as [p IH|p IH|]; cbn; now rewrite ?IH. Qed.

Lemma Zdigits2_log2 (v : Z) : 0 < v -> Zdigits2 v = Z.log2 v + 1.
Proof.
  destruct v as [|p|p]; try lia. intros _.
  cbn [Zdigits2]. rewrite digits2_pos_size.
  destruct p; cbn [Pos.size Z.log2]; lia.
Qed.

Lemma Zdigits2_spec (v : Z) :
  0 < v -> 2 ^ (Zdigits2 v - 1) <= v < 2 ^ Zdigits2 v.
Proof.
  intro H. rewrite Zdigits2_log2 by exact H.
  replace (Z.log2 v + 1 - 1) with (Z.log2 v) by lia.
  replace (Z.log2 v + 1) with (Z.succ (Z.log2 v)) by lia.
  now apply Z.log2_spec.
Qed.

Lemma Zdigits2_pos (v : Z) : 0 < v -> 0 < Zdigits2 v.
Proof.
  intro H. rewrite Zdigits2_log2 by exact H.
  pose proof (Z.log2_nonneg v). lia.
Qed.

Lemma Zdigits2_mono (a b : Z) :
  0 <= a <= b -> Zdigits2 a <= Zdigits2 b.
Proof.
  intros [A B]. destruct (Z.eq_dec a 0) as [->|N].
  - destruct (Z.eq_dec b 0) as [->|N']; [reflexivity|].
    pose proof (Zdigits2_pos b ltac:(lia)). cbn [Zdigits2]. lia.
  - rewrite !Zdigits2_log2 by lia.
    pose proof (Z.log2_le_mono a b B). lia.
Qed.

Lemma Zdigits2_shift (m j : Z) :
  0 < m -> 0 <= j -> Zdigits2 (m * 2 ^ j) = Zdigits2 m + j.
Proof.
  intros M J. pose proof (pow2_pos j J).
  rewrite !Zdigits2_log2 by nia.
  rewrite Z.log2_mul_pow2 by lia. lia.
Qed.

Lemma Zdigits2_unique (v d : Z) :
  2 ^ (d - 1) <= v < 2 ^ d -> 0 < v -> Zdigits2 v = d.
Proof.
  intros [L U] P. rewrite Zdigits2_log2 by exact P.
  destruct (Z.le_gt_cases 1 d) as [D|D].
  - assert (Z.log2 v = d - 1); [|lia].
    apply Z.log2_unique; [lia|].
    replace (Z.succ (d - 1)) with d by lia. lia.
  - rewrite (Z.pow_neg_r 2 (d - 1)) in L by lia.
    assert (d <= 0) by lia.
    destruct (Z.eq_dec d 0) as [->|]; [cbn in U; lia|].
    rewrite Z.pow_neg_r in U by lia. lia.
Qed.

Lemma cexp_eq (v : Z) :
  cexp v = Z.max (Zdigits2 v - 53) 1126.
Proof.
  unfold cexp, fexp, SpecFloat.emin, scale.
  change (3 - emax - prec) with (-1074). change prec with 53. lia.
Qed.

Lemma cexp_mono (a b : Z) : 0 <= a <= b -> cexp a <= cexp b.
Proof.
  intro H. rewrite !cexp_eq.
  pose proof (Zdigits2_mono a b H). lia.
Qed.

Lemma rv_0 : rv 0 = 0.
Proof. reflexivity. Qed.

Lemma rv_nonneg (v : Z) : 0 <= v -> 0 <= rv v.
Proof.
  intro H. unfold rv.
  pose proof (rz_nonneg v (cexp v) H).
  pose proof (cexp_eq v).
  pose proof (pow2_pos (cexp v) ltac:(lia)). nia.
Qed.

Lemma rv_mono (a b : Z) : 0 <= a <= b -> rv a <= rv b.
Proof.
  intros [A B].
  pose proof (cexp_mono a b (conj A B)) as K.
  pose proof (cexp_eq a) as Ea. pose proof (cexp_eq b) as Eb.
  unfold rv.
  destruct (Z.eq_dec (cexp a) (cexp b)) as [E|N].
  - rewrite E. pose proof (rz_mono a b (cexp b) B).
    pose proof (pow2_pos (cexp b) ltac:(lia)). nia.
  - assert (Kb : cexp b = Zdigits2 b - 53) by lia.
    assert (Db : Zdigits2 a < Zdigits2 b) by lia.
    assert (Pb : 0 < b).
    { destruct (Z.eq_dec b 0) as [->|]; [|lia].
      assert (a = 0) by lia. subst a. lia. }
    pose proof (Zdigits2_spec b Pb) as [Lb _].
    set (P := 2 ^ (Zdigits2 b - 1)) in *.
    assert (aP : a <= P).
    { destruct (Z.eq_dec a 0) as [->|Na].
      - subst P. pose proof (pow2_pos (Zdigits2 b - 1) ltac:(lia)). lia.
      - pose proof (Zdigits2_spec a ltac:(lia)) as [_ Ua].
        assert (2 ^ Zdigits2 a <= P); [|lia].
        subst P. apply Z.pow_le_mono_r; lia. }
    assert (Pa : P = 2 ^ (Zdigits2 b - 1 - cexp a) * 2 ^ cexp a).
    { subst P. rewrite <- Z.pow_add_r by lia. f_equal. lia. }
    assert (Pb' : P = 2 ^ (Zdigits2 b - 1 - cexp b) * 2 ^ cexp b).
    { subst P. rewrite <- Z.pow_add_r by lia. f_equal. lia. }
    pose proof (rz_mono a P (cexp a) aP) as M1.
    rewrite Pa in M1. rewrite rz_exact in M1 by lia.
    pose proof (rz_mono P b (cexp b) Lb) as M2.
    rewrite Pb' in M2. rewrite rz_exact in M2 by lia.
    pose proof (pow2_pos (cexp a) ltac:(lia)).
    pose proof (pow2_pos (cexp b) ltac:(lia)).
    nia.
Qed.

(** Values that are already in the format are left alone. *)
Lemma rv_exact (m e : Z) :
  0 < m -> cexp (m * 2 ^ (e + scale)) = e + scale ->
  rv (m * 2 ^ (e + scale)) = m * 2 ^ (e + scale).
Proof.
  intros M C. unfold rv. rewrite C.
  pose proof (cexp_eq (m * 2 ^ (e + scale))).
  rewrite rz_exact by lia. reflexivity.
Qed.

End Digits.

Section Shr.
Import Round SFVal.

Lemma iter_pos_nat {A : Type} (f : A -> A) (p : positive) (x : A) :
  iter_pos f p x = Nat.iter (Pos.to_nat p) f x.
Proof.
  revert x. induction p as [p IH|p IH|]; intro x; cbn [iter_pos].
  - rewrite !IH. rewrite Pos2Nat.inj_xI.
    replace (S (2 * Pos.to_nat p))%nat
      with (Pos.to_nat p + (Pos.to_nat p + 1))%nat by lia.
    rewrite !Nat.iter_add. reflexivity.
  - rewrite !IH. rewrite Pos2Nat.inj_xO.
    replace (2 * Pos.to_nat p)%nat
      with (Pos.to_nat p + Pos.to_nat p)%nat by lia.
    rewrite Nat.iter_add. reflexivity.
  - reflexivity.
Qed.

Lemma shr_1_spec (m : Z) (r s : bool) :
  0 <= m ->
  shr_1 {| shr_m := m; shr_r := r; shr_s := s |}
  = {| shr_m := m / 2; shr_r := Z.odd m; shr_s := r || s |}.
Proof.
  intro H. rewrite <- Z.div2_div.
  destruct m as [|[p|p|]|p]; try lia; reflexivity.
Qed.

Lemma odd_mod2 (a : Z) : a mod 2 = Z.b2z (Z.odd a).
Proof. rewrite <- Z.bit0_odd. symmetry. apply Z.bit0_mod. Qed.

Lemma shr_iter_spec (m : Z) (j : nat) :
  0 <= m ->
  Nat.iter (S j) shr_1 {| shr_m := m; shr_r := false; shr_s := false |}
  = {| shr_m := m / 2 ^ (Z.of_nat j + 1);
       shr_r := Z.odd (m / 2 ^ Z.of_nat j);
       shr_s := negb (m mod 2 ^ Z.of_nat j =? 0) |}.
Proof.
  intro H. induction j as [|j IH].
  - cbn [Nat.iter]. rewrite shr_1_spec by exact H.
    cbn. rewrite Z.div_1_r, Z.mod_1_r. reflexivity.
  - change (Nat.iter (S (S j)) shr_1 ?x)
      with (shr_1 (Nat.iter (S j) shr_1 x)).
    rewrite IH.
    pose proof (pow2_pos (Z.of_nat j) ltac:(lia)) as P.
    rewrite shr_1_spec by (apply Z.div_pos; [lia|apply pow2_pos; lia]).
    rewrite Nat2Z.inj_succ.
    replace (Z.succ (Z.of_nat j)) with (Z.of_nat j + 1) by lia.
    f_equal.
    + rewrite Z.div_div by (try apply pow2_pos; lia).
      f_equal. rewrite (Z.pow_add_r 2 (Z.of_nat j + 1) 1) by lia.
      reflexivity.
    + rewrite (Z.pow_add_r 2 (Z.of_nat j) 1) by lia.
      change (2 ^ 1) with 2.
      rewrite Z.rem_mul_r by lia.
      rewrite odd_mod2.
      pose proof (Z.mod_pos_bound m (2 ^ Z.of_nat j) P) as B.
      destruct (Z.odd (m / 2 ^ Z.of_nat j)); cbn [Z.b2z orb].
      * destruct (Z.eqb_spec (m mod 2 ^ Z.of_nat j + 2 ^ Z.of_nat j * 1) 0);
          [lia|reflexivity].
      * rewrite Z.mul_0_r, Z.add_0_r. reflexivity.
Qed.

Lemma round_shr_spec (m : Z) (j : nat) :
  0 <= m ->
  let R := Nat.iter (S j) shr_1
             {| shr_m := m; shr_r := false; shr_s := false |} in
  round_nearest_even (shr_m R) (loc_of_shr_record R)
  = rz m (Z.of_nat j + 1).
Proof.
  intros H R. subst R. rewrite shr_iter_spec by exact H.
  cbn [shr_m]. unfold rz.
  destruct (Z.leb_spec (Z.of_nat j + 1) 0); [lia|].
  replace (Z.of_nat j + 1 - 1) with (Z.of_nat j) by lia.
  pose proof (pow2_pos (Z.of_nat j) ltac:(lia)) as P.
  rewrite (Z.pow_add_r 2 (Z.of_nat j) 1) by lia.
  change (2 ^ 1) with 2.
  rewrite (Z.rem_mul_r m) by lia.
  rewrite odd_mod2.
  pose proof (Z.mod_pos_bound m (2 ^ Z.of_nat j) P) as B.
  set (h := 2 ^ Z.of_nat j) in *. set (t := m mod h) in *.
  destruct (Z.odd (m / h)); cbn [Z.b2z].
  - destruct (Z.eqb_spec t 0) as [T|T]; cbn [negb loc_of_shr_record
                                            round_nearest_even].
    + destruct (Z.ltb_spec (t + h * 1) h); [lia|].
      destruct (Z.ltb_spec h (t + h * 1)); [lia|]. reflexivity.
    + destruct (Z.ltb_spec (t + h * 1) h); [lia|].
      destruct (Z.ltb_spec h (t + h * 1)); [|lia]. reflexivity.
  - rewrite Z.mul_0_r, Z.add_0_r.
    destruct (Z.ltb_spec t h); [|lia].
    destruct (Z.eqb_spec t 0); reflexivity.
Qed.

(** The first shift of [binary_round_aux], followed by the rounding. *)
Lemma shr_fexp_round (m e : Z) :
  0 < m ->
  let k := fexp prec emax (Zdigits2 m + e) - e in
  0 <= k ->
  let '(mrs, e') := shr_fexp prec emax m e loc_Exact in
  round_nearest_even (shr_m mrs) (loc_of_shr_record mrs) = rz m k
  /\ e' = e + k.
Proof.
  intros M k K. unfold shr_fexp. fold k.
  cbn [shr_record_of_loc]. unfold shr.
  destruct k as [|p|p] eqn:Ek; try lia.
  - cbn. split; [reflexivity|lia].
  - rewrite iter_pos_nat.
    destruct (Pos2Nat.is_succ p) as [j Hj]. rewrite Hj.
    split; [|reflexivity].
    pose proof (round_shr_spec m j ltac:(lia)) as RS. cbn zeta in RS.
    rewrite RS. f_equal. lia.
Qed.

End Shr.

Section Bra.
Import Round SFVal.

Lemma fexp_eq (x : Z) : fexp prec emax x = Z.max (x - 53) (-1074).
Proof. reflexivity. Qed.

Lemma cexp_scaled (m e : Z) :
  0 < m -> - scale <= e ->
  cexp (m * 2 ^ (e + scale)) = fexp prec emax (Zdigits2 m + e) + scale.
Proof.
  intros M E. unfold cexp. rewrite Zdigits2_shift by lia.
  f_equal. f_equal. lia.
Qed.

Lemma rz_le_pow53 (v : Z) : 0 < v -> rz v (cexp v) <= 2 ^ 53.
Proof.
  intro H. pose proof (cexp_eq v) as C.
  pose proof (Zdigits2_spec v H) as [_ U].
  assert (L : v <= 2 ^ 53 * 2 ^ cexp v).
  { rewrite <- Z.pow_add_r by lia.
    assert (2 ^ Zdigits2 v <= 2 ^ (53 + cexp v)); [|lia].
    apply Z.pow_le_mono_r; lia. }
  pose proof (rz_mono _ _ (cexp v) L) as R.
  rewrite rz_exact in R by lia. exact R.
Qed.

Lemma shr_fexp_small (M E : Z) :
  0 <= M < 2 ^ 53 -> -1074 <= E ->
  shr_fexp prec emax M E loc_Exact
  = ({| shr_m := M; shr_r := false; shr_s := false |}, E).
Proof.
  intros [M0 M1] HE. unfold shr_fexp, shr. cbn [shr_record_of_loc].
  assert (N : fexp prec emax (Zdigits2 M + E) - E <= 0).
  { rewrite fexp_eq.
    destruct (Z.eq_dec M 0) as [->|NZ]; [cbn [Zdigits2]; lia|].
    assert (Zdigits2 M <= 53); [|lia].
    destruct (Z.le_gt_cases (Zdigits2 M) 53) as [|G]; [assumption|].
    pose proof (Zdigits2_spec M ltac:(lia)) as [L _].
    assert (2 ^ 53 <= 2 ^ (Zdigits2 M - 1))
      by (apply Z.pow_le_mono_r; lia).
    lia. }
  destruct (fexp prec emax (Zdigits2 M + E) - E); try reflexivity; lia.
Qed.

Lemma shr_fexp_carry (E : Z) :
  -1074 <= E ->
  shr_fexp prec emax (2 ^ 53) E loc_Exact
  = ({| shr_m := 2 ^ 52; shr_r := false; shr_s := false |}, E + 1).
Proof.
  intro HE. unfold shr_fexp, shr. cbn [shr_record_of_loc].
  assert (N : fexp prec emax (Zdigits2 (2 ^ 53) + E) - E = 1).
  { rewrite fexp_eq. change (Zdigits2 (2 ^ 53)) with 54. lia. }
  rewrite N. reflexivity.
Qed.

(** [binary_round_aux] on an exact, left-aligned input rounds the scaled
    value. *)
Lemma bra_value (m : positive) (e : Z) :
  - scale <= e ->
  e <= fexp prec emax (Zdigits2 (Zpos m) + e) ->
  Zpos m * 2 ^ (e + scale) < 2 ^ (scale + 1000) ->
  nonneg (binary_round_aux prec emax false (Zpos m) e loc_Exact)
  /\ SFV (binary_round_aux prec emax false (Zpos m) e loc_Exact)
     = rv (Zpos m * 2 ^ (e + scale)).
Proof.
  intros HE HK HB.
  set (V := Zpos m * 2 ^ (e + scale)) in *.
  assert (VP : 0 < V).
  { subst V. pose proof (pow2_pos (e + scale) ltac:(lia)). nia. }
  pose proof (cexp_scaled (Zpos m) e ltac:(lia) HE) as CE. fold V in CE.
  pose proof (cexp_eq V) as CQ.
  assert (DV : Zdigits2 V <= scale + 1000).
  { destruct (Z.le_gt_cases (Zdigits2 V) (scale + 1000)) as [|G];
      [assumption|].
    pose proof (Zdigits2_spec V VP) as [L _].
    assert (2 ^ (scale + 1000) <= 2 ^ (Zdigits2 V - 1))
      by (apply Z.pow_le_mono_r; unfold scale in *; lia).
    lia. }
  unfold binary_round_aux.
  pose proof (shr_fexp_round (Zpos m) e ltac:(lia)) as SR.
  cbn zeta in SR. specialize (SR ltac:(lia)).
  destruct (shr_fexp prec emax (Zpos m) e loc_Exact) as [mrs e'].
  destruct SR as [RM RE]. rewrite RM.
  set (k := fexp prec emax (Zdigits2 (Zpos m) + e) - e) in *.
  assert (MV : rz (Zpos m) k = rz V (cexp V)).
  { subst V. rewrite CE.
    replace (fexp prec emax (Zdigits2 (Zpos m) + e) + scale)
      with (k + (e + scale)) by (subst k; lia).
    rewrite rz_shift by lia. reflexivity. }
  rewrite MV.
  assert (E' : e' = cexp V - scale) by (subst k; lia).
  pose proof (rz_le_pow53 V VP) as MU.
  pose proof (rz_nonneg V (cexp V) ltac:(lia)) as ML.
  unfold rv. set (M := rz V (cexp V)) in *.
  assert (EL : -1074 <= e') by (unfold scale in *; lia).
  destruct (Z.eq_dec M (2 ^ 53)) as [C|NC].
  - rewrite C, shr_fexp_carry by exact EL. cbn [shr_m].
    change (2 ^ 52) with (Zpos (Z.to_pos (2 ^ 52))).
    destruct (Z.leb_spec (e' + 1) (emax - prec)) as [_|O].
    + split; [cbn; unfold scale in *; lia|].
      cbn [SFV].
      replace (e' + 1 + scale) with (1 + cexp V) by lia.
      rewrite Z.pow_add_r by lia.
      change (Zpos (Z.to_pos (2 ^ 52)) * (2 ^ 1 * 2 ^ cexp V))
        with (2 ^ 52 * (2 * 2 ^ cexp V)).
      change (2 ^ 53) with (2 ^ 52 * 2). lia.
    + change (emax - prec) with 971 in O. unfold scale in *. lia.
  - rewrite shr_fexp_small by lia. cbn [shr_m].
    destruct M as [|p|p] eqn:EM; try lia.
    + split; [exact I|reflexivity].
    + destruct (Z.leb_spec e' (emax - prec)) as [_|O].
      * split; [cbn; unfold scale in *; lia|].
        cbn [SFV]. f_equal. f_equal. lia.
      * change (emax - prec) with 971 in O. unfold scale in *. lia.
Qed.

End Bra.

Section Ops.
Import Round SFVal.

Lemma shl_align_spec (mx : positive) (ex ex' : Z) :
  Zpos (fst (shl_align mx ex ex')) = Zpos mx * 2 ^ (ex - Z.min ex ex')
  /\ snd (shl_align mx ex ex') = Z.min ex ex'.
Proof.
  unfold shl_align.
  destruct (ex' - ex) as [|d|d] eqn:E; cbn [fst snd].
  - replace (Z.min ex ex') with ex by lia.
    rewrite Z.sub_diag. cbn. lia.
  - replace (Z.min ex ex') with ex by lia.
    rewrite Z.sub_diag. cbn. lia.
  - replace (Z.min ex ex') with ex' by lia.
    fold (shift_pos d mx). rewrite shift_pos_correct.
    replace (ex - ex') with (Zpos d) by lia.
    change (Z.pow_pos 2 d) with (2 ^ Zpos d). lia.
Qed.

Lemma binary_round_value (m : positive) (e : Z) :
  -1074 <= e ->
  Zpos m * 2 ^ (e + scale) < 2 ^ (scale + 1000) ->
  nonneg (binary_round prec emax false m e)
  /\ SFV (binary_round prec emax false m e) = rv (Zpos m * 2 ^ (e + scale)).
Proof.
  intros HE HB. unfold binary_round.
  pose proof (shl_align_spec m e
                (fexp prec emax (Zpos (digits2_pos m) + e))) as [A1 A2].
  destruct (shl_align m e (fexp prec emax (Zpos (digits2_pos m) + e)))
    as [mz ez].
  cbn [fst snd] in A1, A2.
  set (F := fexp prec emax (Zpos (digits2_pos m) + e)) in *.
  assert (FL : -1074 <= F) by (subst F; rewrite fexp_eq; lia).
  assert (V : Zpos mz * 2 ^ (ez + scale) = Zpos m * 2 ^ (e + scale)).
  { rewrite A1, <- Z.mul_assoc, <- Z.pow_add_r
      by (unfold scale; lia).
    f_equal. f_equal. lia. }
  rewrite <- V in *.
  apply bra_value; [unfold scale; lia| |exact HB].
  change (Zdigits2 (Zpos mz)) with (Zpos (digits2_pos mz)).
  assert (D : Zdigits2 (Zpos mz) = Zdigits2 (Zpos m) + (e - ez)).
  { rewrite A1, A2. apply Zdigits2_shift; lia. }
  change (Zdigits2 (Zpos mz)) with (Zpos (digits2_pos mz)) in D.
  change (Zdigits2 (Zpos m)) with (Zpos (digits2_pos m)) in D.
  rewrite D.
  replace (Zpos (digits2_pos m) + (e - ez) + ez)
    with (Zpos (digits2_pos m) + e) by lia.
  fold F. lia.
Qed.

Lemma binary_normalize_value (D e : Z) :
  0 <= D -> -1074 <= e ->
  D * 2 ^ (e + scale) < 2 ^ (scale + 1000) ->
  nonneg (binary_normalize prec emax D e false)
  /\ SFV (binary_normalize prec emax D e false) = rv (D * 2 ^ (e + scale)).
Proof.
  intros HD HE HB. destruct D as [|d|d]; try lia.
  - split; [exact I|reflexivity].
  - now apply binary_round_value.
Qed.

Lemma bra_opp (m e : Z) (l : location) :
  binary_round_aux prec emax true m e l
  = SFopp (binary_round_aux prec emax false m e l).
Proof.
  unfold binary_round_aux.
  destruct (shr_fexp prec emax m e l) as [mrs e'].
  destruct (shr_fexp prec emax _ e' loc_Exact) as [mrs' e''].
  destruct (shr_m mrs'); try reflexivity.
  destruct (e'' <=? emax - prec); reflexivity.
Qed.

Lemma aligned_value (m : positive) (e ez : Z) :
  ez = Z.min e ez \/ ez <= e -> - scale <= ez ->
  Zpos (fst (shl_align m e ez)) * 2 ^ (ez + scale)
  = Zpos m * 2 ^ (e + scale).
Proof.
  intros H S. destruct (shl_align_spec m e ez) as [A _]. rewrite A.
  replace (Z.min e ez) with ez by lia.
  rewrite <- Z.mul_assoc, <- Z.pow_add_r by lia.
  f_equal. f_equal. lia.
Qed.

(** Values of valid data are fixed by the rounding. *)
Lemma rv_valid (r : spec_float) :
  nonneg r -> valid_binary r = true -> rv (SFV r) = SFV r.
Proof.
  destruct r as [[|]|s| |[|] m e]; cbn [nonneg]; try tauto;
    intros N B; try reflexivity.
  cbn [SFV]. apply rv_exact; [lia|].
  cbn [SpecFloat.valid_binary] in B. unfold bounded in B.
  apply andb_prop in B as [C _]. unfold canonical_mantissa in C.
  apply Z.eqb_eq in C.
  rewrite cexp_scaled by (unfold scale; lia).
  change (Zdigits2 (Zpos m)) with (Zpos (digits2_pos m)). lia.
Qed.

Lemma SFV_nonneg (r : spec_float) : 0 <= SFV r.
Proof.
  destruct r as [s|s| |[|] m e]; cbn [SFV]; lia.
Qed.

Lemma SFadd_value (a b : spec_float) :
  nonneg a -> nonneg b ->
  valid_binary a = true -> valid_binary b = true ->
  SFV a + SFV b < 2 ^ (scale + 1000) ->
  nonneg (SF64add a b) /\ SFV (SF64add a b) = rv (SFV a + SFV b).
Proof.
  intros Na Nb Va Vb HB.
  destruct a as [[|]|sa| |[|] ma ea]; cbn [nonneg] in Na; try contradiction;
    destruct b as [[|]|sb| |[|] mb eb]; cbn [nonneg] in Nb; try contradiction.
  - split; [exact I|reflexivity].
  - split; [exact Nb|].
    cbn [SF64add SFadd]. change (SFV (S754_zero false)) with 0.
    rewrite Z.add_0_l. symmetry. now apply rv_valid.
  - split; [exact Na|].
    cbn [SF64add SFadd]. change (SFV (S754_zero false)) with 0.
    rewrite Z.add_0_r. symmetry. now apply rv_valid.
  - unfold SF64add, SFadd. cbn [cond_Zopp SFV] in *.
    set (ez := Z.min ea eb).
    pose proof (aligned_value ma ea ez ltac:(lia)
                  ltac:(unfold scale; lia)) as A.
    pose proof (aligned_value mb eb ez ltac:(lia)
                  ltac:(unfold scale; lia)) as B.
    rewrite <- A, <- B, <- Z.mul_add_distr_r in *.
    apply binary_normalize_value; [lia|lia|exact HB].
Qed.

Lemma SFsub_value (a b : spec_float) :
  nonneg a -> nonneg b ->
  valid_binary a = true -> valid_binary b = true ->
  SFV b <= SFV a -> SFV a < 2 ^ (scale + 1000) ->
  nonneg (SF64sub a b) /\ SFV (SF64sub a b) = rv (SFV a - SFV b).
Proof.
  intros Na Nb Va Vb HL HB.
  destruct a as [[|]|sa| |[|] ma ea]; cbn [nonneg] in Na; try contradiction;
    destruct b as [[|]|sb| |[|] mb eb]; cbn [nonneg] in Nb; try contradiction.
  - split; [exact I|reflexivity].
  - exfalso. cbn [SFV] in HL.
    pose proof (pow2_pos (eb + scale) ltac:(unfold scale; lia)). nia.
  - split; [exact Na|].
    cbn [SF64sub SFsub]. change (SFV (S754_zero false)) with 0.
    rewrite Z.sub_0_r. symmetry. now apply rv_valid.
  - unfold SF64sub, SFsub. cbn [cond_Zopp SFV] in *.
    set (ez := Z.min ea eb).
    pose proof (aligned_value ma ea ez ltac:(lia)
                  ltac:(unfold scale; lia)) as A.
    pose proof (aligned_value mb eb ez ltac:(lia)
                  ltac:(unfold scale; lia)) as B.
    rewrite <- A, <- B, <- Z.mul_sub_distr_r in *.
    pose proof (pow2_pos (ez + scale) ltac:(unfold scale; lia)) as P.
    apply binary_normalize_value; [nia|lia|].
    pose proof (SFV_nonneg (S754_finite false mb eb)) as Q.
    cbn [SFV] in Q. rewrite <- B in Q. nia.
Qed.

End Ops.

Section Order.
Import Round SFVal.

Lemma canonical_bounds (m : positive) (e : Z) :
  valid_binary (S754_finite false m e) = true ->
  -1074 <= e <= 971
  /\ Zpos m < 2 ^ 53
  /\ (-1074 < e -> 2 ^ 52 <= Zpos m).
Proof.
  cbn [SpecFloat.valid_binary]. unfold bounded, canonical_mantissa.
  intro B. apply andb_prop in B as [C L].
  apply Z.eqb_eq in C. apply Z.leb_le in L.
  rewrite fexp_eq in C. change (emax - prec) with 971 in L.
  pose proof (Zdigits2_spec (Zpos m) ltac:(lia)) as [DL DU].
  change (Zdigits2 (Zpos m)) with (Zpos (digits2_pos m)) in *.
  set (d := Zpos (digits2_pos m)) in *.
  split; [lia|]. split.
  - assert (2 ^ d <= 2 ^ 53) by (apply Z.pow_le_mono_r; lia). lia.
  - intro G. assert (d = 53) by lia.
    replace (d - 1) with 52 in DL by lia. exact DL.
Qed.

Lemma SFleb_value (m1 m2 : positive) (e1 e2 : Z) :
  valid_binary (S754_finite false m1 e1) = true ->
  valid_binary (S754_finite false m2 e2) = true ->
  SFleb (S754_finite false m1 e1) (S754_finite false m2 e2) = true ->
  SFV (S754_finite false m1 e1) <= SFV (S754_finite false m2 e2).
Proof.
  intros V1 V2. cbn [SFV].
  destruct (canonical_bounds m1 e1 V1) as [E1 [U1 _]].
  destruct (canonical_bounds m2 e2 V2) as [E2 [_ L2]].
  unfold SFleb, SFcompare.
  destruct (Z.compare_spec e1 e2) as [E|E|E].
  - subst e2. rewrite Pos.compare_cont_spec. cbn [Pos.switch_Eq].
    destruct (Pos.compare_spec m1 m2) as [M|M|M];
      [intros _|intros _|discriminate].
    + subst. lia.
    + pose proof (pow2_pos (e1 + scale) ltac:(unfold scale; lia)). nia.
  - intros _. specialize (L2 ltac:(lia)).
    replace (e2 + scale) with ((e2 - e1 - 1) + (1 + (e1 + scale))) by lia.
    rewrite (Z.pow_add_r 2 (e2 - e1 - 1)) by (unfold scale; lia).
    rewrite (Z.pow_add_r 2 1) by (unfold scale; lia).
    pose proof (pow2_pos (e2 - e1 - 1) ltac:(lia)) as PA.
    pose proof (pow2_pos (e1 + scale) ltac:(unfold scale; lia)) as PB.
    change (2 ^ 1) with 2.
    set (A := 2 ^ (e2 - e1 - 1)) in *. set (B := 2 ^ (e1 + scale)) in *.
    assert (S1 : Zpos m1 * B <= 2 ^ 53 * B) by nia.
    assert (S2 : 2 ^ 53 * B <= Zpos m2 * (2 * B)).
    { change (2 ^ 53) with (2 ^ 52 * 2). nia. }
    assert (S3 : Zpos m2 * (2 * B) <= Zpos m2 * (A * (2 * B))) by nia.
    lia.
  - discriminate.
Qed.

(** A float between two positive finite floats is positive and finite. *)
Lemma between_finite (x : float) (ml mu : positive) (el eu : Z) :
  SFleb (S754_finite false ml el) (Prim2SF x) = true ->
  SFleb (Prim2SF x) (S754_finite false mu eu) = true ->
  exists m e, Prim2SF x = S754_finite false m e.
Proof.
  destruct (Prim2SF x) as [s|[|]| |[|] m e]; cbn;
    try discriminate; try (destruct s; discriminate).
  intros _ _. now exists m, e.
Qed.

End Order.

Section MulTrunc.
Import Round SFVal.

Lemma SFmul_value (mc : positive) (ec C : Z) (b : spec_float) :
  -1000 <= ec <= 0 -> Zpos mc = C * 2 ^ (- ec) -> 2 ^ 52 <= Zpos mc ->
  nonneg b -> C * SFV b < 2 ^ (scale + 1000) ->
  nonneg (SF64mul (S754_finite false mc ec) b)
  /\ SFV (SF64mul (S754_finite false mc ec) b) = rv (C * SFV b).
Proof.
  intros HE HC HM Nb HB.
  destruct b as [[|]|sb| |[|] mb eb]; cbn [nonneg] in Nb; try contradiction.
  - split; [exact I|]. cbn [SFV]. rewrite Z.mul_0_r. reflexivity.
  - unfold SF64mul, SFmul. cbn [xorb SFV] in *.
    assert (V : Zpos (mc * mb) * 2 ^ (ec + eb + scale)
                = C * (Zpos mb * 2 ^ (eb + scale))).
    { rewrite Pos2Z.inj_mul, HC.
      replace (eb + scale) with (- ec + (ec + eb + scale)) by lia.
      rewrite (Z.pow_add_r 2 (- ec)) by (unfold scale; lia). ring. }
    rewrite <- V in *.
    apply bra_value; [unfold scale; lia| |exact HB].
    assert (D : 53 <= Zdigits2 (Zpos (mc * mb))).
    { change 53 with (Zdigits2 (2 ^ 52)). apply Zdigits2_mono.
      rewrite Pos2Z.inj_mul. split; [lia|nia]. }
    rewrite fexp_eq. lia.
Qed.

Lemma SFmul_neg (mc : positive) (ec : Z) (b : spec_float) :
  nonneg b ->
  SF64mul (S754_finite true mc ec) b
  = SFopp (SF64mul (S754_finite false mc ec) b).
Proof.
  destruct b as [[|]|sb| |[|] mb eb]; cbn [nonneg]; try contradiction;
    intros _; [reflexivity|].
  unfold SF64mul, SFmul. cbn [xorb]. apply bra_opp.
Qed.

Lemma SFadd_opp (ma mb : positive) (ea eb : Z) :
  SF64add (S754_finite false ma ea) (S754_finite true mb eb)
  = SF64sub (S754_finite false ma ea) (S754_finite false mb eb).
Proof.
  unfold SF64add, SF64sub, SFadd, SFsub. cbn [cond_Zopp].
  now rewrite Z.add_opp_r.
Qed.

Lemma trunc_value (m : positive) (e : Z) :
  -1074 <= e ->
  (if 0 <=? e then Z.shiftl (Zpos m) e else Z.shiftr (Zpos m) (- e))
  = Zpos m * 2 ^ (e + scale) / 2 ^ scale.
Proof.
  intro HE. pose proof (pow2_pos scale ltac:(unfold scale; lia)) as PS.
  destruct (Z.leb_spec 0 e) as [P|N].
  - rewrite Z.shiftl_mul_pow2 by lia.
    rewrite Z.pow_add_r by (unfold scale; lia).
    rewrite Z.mul_assoc, Z.div_mul by lia. reflexivity.
  - rewrite Z.shiftr_div_pow2 by lia.
    replace scale with ((e + scale) + - e) at 2 by lia.
    rewrite (Z.pow_add_r 2 (e + scale)) by (unfold scale; lia).
    rewrite (Z.mul_comm (2 ^ (e + scale))).
    rewrite Z.div_mul_cancel_r; [reflexivity| |];
      apply Z.pow_nonzero; unfold scale; lia.
Qed.

Lemma int_of_float_neg (z : float) (r : spec_float) :
  nonneg r -> Prim2SF z = SFopp r ->
  Py.int_of_float z = inr (- (SFV r / 2 ^ scale)).
Proof.
  intros N E. unfold Py.int_of_float. rewrite E.
  destruct r as [[|]|sb| |[|] m e]; cbn [nonneg] in N; try contradiction;
    cbn [SFopp negb SFV].
  - reflexivity.
  - now rewrite trunc_value.
Qed.

Lemma int_of_float_pos (z : float) :
  nonneg (Prim2SF z) ->
  Py.int_of_float z = inr (SFV (Prim2SF z) / 2 ^ scale).
Proof.
  intros N. unfold Py.int_of_float.
  destruct (Prim2SF z) as [[|]|sb| |[|] m e]; cbn [nonneg] in N;
    try contradiction; cbn [SFV].
  - reflexivity.
  - now rewrite trunc_value.
Qed.

End MulTrunc.

(** ** The byte pairs of the drive command *)

Section Encoding.

Lemma twos_complement16_mod (v : Z) :
  Wire.signed16 v -> Wire.twos_complement16 v = v mod 65536.
Proof.
  unfold Wire.signed16, Wire.twos_complement16. intro H.
  destruct (Z.ltb_spec v 0); Z.div_mod_to_equations; lia.
Qed.

Lemma encode16_div_mod (v : Z) :
  Wire.signed16 v ->
  Wire.encode16 v = [(v / 256) mod 256; v mod 256].
Proof.
  intro H. unfold Wire.encode16, Wire.big_endian16.
  rewrite twos_complement16_mod by exact H.
  rewrite Z.shiftr_div_pow2 by lia.
  change 255 with (Z.ones 8). rewrite Z.land_ones by lia.
  change (2 ^ 8) with 256.
  unfold Wire.signed16 in H.
  f_equal; [|f_equal]; Z.div_mod_to_equations; lia.
Qed.

Lemma decode16_encode16 (v : Z) :
  Wire.signed16 v ->
  Wire.decode16 ((v / 256) mod 256) (v mod 256) = v.
Proof.
  unfold Wire.signed16, Wire.decode16. intro H.
  destruct (Z.ltb_spec ((v / 256) mod 256 * 256 + v mod 256) 32768);
    Z.div_mod_to_equations; lia.
Qed.

Lemma bytearray_of_bytes (l : list Z) :
  Forall (fun z => 0 <= z < 256) l ->
  Py.bytearray (map Py.Int l) = inr l.
Proof.
  induction 1 as [|z l Hz _ IH]; [reflexivity|].
  cbn [map Py.bytearray]. rewrite IH.
  destruct (Z.leb_spec 0 z); [|lia].
  destruct (Z.ltb_spec z 256); [|lia].
  reflexivity.
Qed.

Lemma velocity_bytes_int (v : Z) :
  controller.velocity_bytes (Py.Int v)
  = inr [Py.Int ((v / 256) mod 256); Py.Int (v mod 256)].
Proof. reflexivity. Qed.

(** C10.  A stick whose magnitude is below the threshold is read as
    centred, and the radius bytes are then the reserved pair [128, 0];
    the formula of the other branch would give 1819 at zero, another
    pair. *)
Theorem drift_gives_straight_sentinel (c : controller.sample) :
  (abs (controller.axis0 c) <? cc.THRESHOLD)%float = true ->
  controller.poll_sticks c = 0%float
  /\ cf.apply_turning_radius (controller.poll_sticks c) cc.THRESHOLD
       cc.MIN_RADIUS cc.MAX_RADIUS
     = inr [Py.Int 128; Py.Int 0]
  /\ cf.turning_radius 0 cc.THRESHOLD cc.MIN_RADIUS cc.MAX_RADIUS
     = inr 1819
  /\ cf.byte_pair 1819 <> [Py.Int 128; Py.Int 0].
Proof.
  intro H. unfold controller.poll_sticks. rewrite H.
  repeat split; try reflexivity. discriminate.
Qed.

Lemma drift_gives_straight_sentinel_witness :
  cf.apply_turning_radius
    (controller.poll_sticks
       (controller.mkSample 0.05 (-1) (-1) false cc.mushroom 0 0))
    cc.THRESHOLD cc.MIN_RADIUS cc.MAX_RADIUS
  = inr [Py.Int 128; Py.Int 0].
Proof.
  apply (drift_gives_straight_sentinel
           (controller.mkSample 0.05 (-1) (-1) false cc.mushroom 0 0)).
  reflexivity.
Defined.

End Encoding.

(** ** The radius formula in binary64 *)

Section Chain.
Import Round SFVal Radius.

Lemma Prim2SF_one : Prim2SF 1 = S754_finite false 4503599627370496 (-52).
Proof. reflexivity. Qed.

Lemma Prim2SF_threshold :
  Prim2SF cc.THRESHOLD = S754_finite false 5044031582654956 (-56).
Proof. reflexivity. Qed.

Lemma one_bound : 2 * one < 2 ^ (scale + 1000).
Proof. vm_compute. reflexivity. Qed.

Lemma threshold_le_one : 0 < threshold <= one.
Proof. split; vm_compute; [reflexivity|discriminate]. Qed.

Lemma rv_one : rv one = one.
Proof.
  unfold one. apply rv_valid; [rewrite Prim2SF_one; cbn; lia|].
  apply Prim2SF_valid.
Qed.

Lemma rv_two : rv (2 * one) = 2 * one.
Proof.
  change (2 * one) with (SFV (Prim2SF 2)).
  apply rv_valid; [cbn; lia|apply Prim2SF_valid].
Qed.

(** The three roundings of the radius formula, on scaled values. *)
Lemma inner_bounds (v : Z) :
  0 <= v <= one ->
  0 <= rv (one - v) <= one
  /\ 0 <= rv (rv (one - v) + threshold) <= 2 * one.
Proof.
  intro H. pose proof threshold_le_one as T.
  assert (A : 0 <= rv (one - v) <= one).
  { split; [apply rv_nonneg; lia|].
    rewrite <- rv_one at 2. apply rv_mono; lia. }
  split; [exact A|].
  split; [apply rv_nonneg; lia|].
  rewrite <- rv_two. apply rv_mono; lia.
Qed.

Lemma magnitude_antitone (v v' : Z) :
  0 <= v <= v' -> v' <= one -> magnitude v' <= magnitude v.
Proof.
  intros H H'. unfold magnitude. pose proof threshold_le_one as T.
  destruct (inner_bounds v ltac:(lia)) as [A B].
  destruct (inner_bounds v' ltac:(lia)) as [A' B'].
  apply Z.div_le_mono; [apply pow2_pos; unfold scale; lia|].
  apply rv_mono. split; [lia|].
  apply Z.mul_le_mono_nonneg_l; [lia|].
  apply rv_mono. split; [lia|].
  apply Z.add_le_mono_r.
  apply rv_mono. lia.
Qed.

(** [1 - x + threshold] for a finite [x] between 0 and 1. *)
Lemma formula_value (b : spec_float) (u w : float) :
  nonneg b -> valid_binary b = true -> SFV b <= one ->
  Prim2SF u = SF64sub (Prim2SF 1) b ->
  Prim2SF w = SF64add (Prim2SF u) (Prim2SF cc.THRESHOLD) ->
  nonneg (Prim2SF w)
  /\ SFV (Prim2SF w) = rv (rv (one - SFV b) + threshold).
Proof.
  intros Nb Vb Lb Eu Ew.
  pose proof one_bound as OB. pose proof threshold_le_one as T.
  pose proof (SFV_nonneg b) as Pb.
  assert (N1 : nonneg (Prim2SF 1)) by (rewrite Prim2SF_one; cbn; lia).
  assert (Nt : nonneg (Prim2SF cc.THRESHOLD))
    by (rewrite Prim2SF_threshold; cbn; lia).
  assert (B1 : SFV (Prim2SF 1) < 2 ^ (scale + 1000)) by (fold one; lia).
  destruct (SFsub_value (Prim2SF 1) b N1 Nb (Prim2SF_valid 1) Vb Lb B1)
    as [Nu Su].
  rewrite <- Eu in Nu, Su. fold one in Su.
  destruct (inner_bounds (SFV b) ltac:(lia)) as [A _].
  assert (B2 : SFV (Prim2SF u) + SFV (Prim2SF cc.THRESHOLD)
               < 2 ^ (scale + 1000)) by (fold threshold; lia).
  destruct (SFadd_value (Prim2SF u) (Prim2SF cc.THRESHOLD) Nu Nt
              (Prim2SF_valid u) (Prim2SF_valid cc.THRESHOLD) B2)
    as [Nw Sw].
  rewrite <- Ew in Nw, Sw. fold threshold in Sw.
  split; [exact Nw|]. now rewrite Sw, Su.
Qed.

End Chain.

Section Steer.
Import Round SFVal Radius.

Lemma scaled_bound : 3400 * one < 2 ^ (scale + 1000).
Proof. vm_compute. reflexivity. Qed.

(** Two stick magnitudes in order between the threshold and 1 are
    positive finite floats, and their scaled values are in the same
    order. *)
Lemma magnitudes_in_range (a b : float) :
  (cc.THRESHOLD <=? a)%float = true -> (a <=? b)%float = true ->
  (b <=? 1)%float = true ->
  exists ma ea mb eb,
    Prim2SF a = S754_finite false ma ea
    /\ Prim2SF b = S754_finite false mb eb
    /\ threshold <= SFV (S754_finite false ma ea)
    /\ SFV (S754_finite false ma ea) <= SFV (S754_finite false mb eb)
    /\ SFV (S754_finite false mb eb) <= one.
Proof.
  rewrite !leb_spec. intros L M U.
  pose proof (Prim2SF_valid a) as Va.
  pose proof (Prim2SF_valid b) as Vb.
  pose proof (Prim2SF_valid 1) as V1.
  pose proof (Prim2SF_valid cc.THRESHOLD) as Vt.
  rewrite Prim2SF_one in U, V1. rewrite Prim2SF_threshold in L, Vt.
  assert (F : exists ma ea mb eb,
             Prim2SF a = S754_finite false ma ea
             /\ Prim2SF b = S754_finite false mb eb).
  { destruct (Prim2SF a) as [sa|[|]| |[|] ma ea];
      try discriminate L; try (destruct sa; discriminate L);
      destruct (Prim2SF b) as [sb|[|]| |[|] mb eb];
      try discriminate M; try discriminate U;
      try (destruct sb; discriminate M).
    now exists ma, ea, mb, eb. }
  destruct F as (ma & ea & mb & eb & Ea & Eb).
  rewrite Ea, Eb in *. exists ma, ea, mb, eb.
  split; [reflexivity|]. split; [reflexivity|].
  unfold threshold, one. rewrite Prim2SF_one, Prim2SF_threshold.
  repeat split; now apply SFleb_value.
Qed.

Lemma magnitude_in_range (a : float) :
  (cc.THRESHOLD <=? a)%float = true -> (a <=? 1)%float = true ->
  exists m e,
    Prim2SF a = S754_finite false m e
    /\ threshold <= SFV (S754_finite false m e) <= one.
Proof.
  rewrite !leb_spec. intros L U.
  pose proof (Prim2SF_valid a) as Va.
  pose proof (Prim2SF_valid 1) as V1.
  pose proof (Prim2SF_valid cc.THRESHOLD) as Vt.
  rewrite Prim2SF_one in U, V1. rewrite Prim2SF_threshold in L, Vt.
  destruct (between_finite a _ _ _ _ L U) as (m & e & E).
  rewrite E in *. exists m, e. split; [reflexivity|].
  unfold threshold, one. rewrite Prim2SF_one, Prim2SF_threshold.
  split; now apply SFleb_value.
Qed.

Lemma times_1700 (w z : float) (sg : bool) :
  nonneg (Prim2SF w) -> SFV (Prim2SF w) <= 2 * one ->
  Prim2SF z
  = SF64mul (S754_finite sg 7476679068876800 (-42)) (Prim2SF w) ->
  Py.int_of_float z
  = inr (if sg then - (rv (1700 * SFV (Prim2SF w)) / 2 ^ scale)
         else rv (1700 * SFV (Prim2SF w)) / 2 ^ scale).
Proof.
  intros Nw Bw Ez. pose proof scaled_bound as SB.
  pose proof (SFV_nonneg (Prim2SF w)) as Pw.
  assert (H1 : -1000 <= -42 <= 0) by lia.
  assert (H2 : Zpos 7476679068876800 = 1700 * 2 ^ (- -42)) by reflexivity.
  assert (H3 : 2 ^ 52 <= Zpos 7476679068876800) by discriminate.
  assert (H4 : 1700 * SFV (Prim2SF w) < 2 ^ (scale + 1000)) by lia.
  destruct (SFmul_value _ _ _ (Prim2SF w) H1 H2 H3 Nw H4) as [Nz Sz].
  destruct sg.
  - rewrite SFmul_neg in Ez by exact Nw.
    rewrite (int_of_float_neg z _ Nz Ez). now rewrite Sz.
  - rewrite <- Ez in Nz, Sz.
    rewrite (int_of_float_pos z Nz). now rewrite Sz.
Qed.

(** The radius for a stick of magnitude at most 1, not at rest:
    negative to the right, positive to the left, with the magnitude
    that [Radius.magnitude] gives. *)
Lemma radius_of_steer (s : float) (m : positive) (e : Z) :
  Prim2SF (abs s) = S754_finite false m e ->
  SFV (S754_finite false m e) <= one ->
  (s =? 0)%float = false
  /\ cf.turning_radius s cc.THRESHOLD cc.MIN_RADIUS cc.MAX_RADIUS
     = inr (if (0 <? s)%float
            then - magnitude (SFV (Prim2SF (abs s)))
            else magnitude (SFV (Prim2SF (abs s)))).
Proof.
  intros E B2.
  pose proof (Prim2SF_valid (abs s)) as V. rewrite E in V.
  rewrite E. rewrite abs_spec in E.
  assert (N : nonneg (S754_finite false m e)).
  { cbn. now destruct (canonical_bounds m e V) as [[? _] _]. }
  assert (Z0 : (s =? 0)%float = false).
  { rewrite eqb_spec.
    destruct (Prim2SF s) as [?|?| |sg m' e']; try discriminate E.
    now destruct sg. }
  split; [exact Z0|].
  unfold cf.turning_radius.
  change (Py.float_of_Z cc.MIN_RADIUS) with (-1700)%float.
  change (Py.float_of_Z cc.MAX_RADIUS) with (1700)%float.
  change (Py.float_of_Z 1) with 1%float.
  rewrite ltb_spec.
  destruct (Prim2SF s) as [?|?| |sg m' e'] eqn:Es; try discriminate E.
  cbn [SFabs] in E. injection E as -> ->.
  destruct sg.
  - (* pushed left *)
    change (SFltb (Prim2SF 0) (S754_finite true m e)) with false.
    cbv iota.
    assert (Eu : Prim2SF (1 + s)%float
                 = SF64sub (Prim2SF 1) (S754_finite false m e)).
    { rewrite add_spec, Es, Prim2SF_one. apply SFadd_opp. }
    destruct (formula_value (S754_finite false m e) (1 + s)%float
                (1 + s + cc.THRESHOLD)%float N V B2 Eu (add_spec _ _))
      as [Nw Sw].
    rewrite (times_1700 (1 + s + cc.THRESHOLD)%float _ false Nw).
    + unfold magnitude. now rewrite Sw.
    + rewrite Sw. apply inner_bounds.
      pose proof (SFV_nonneg (S754_finite false m e)). lia.
    + now rewrite mul_spec.
  - (* pushed right *)
    change (SFltb (Prim2SF 0) (S754_finite false m e)) with true.
    cbv iota.
    assert (Eu : Prim2SF (1 - s)%float
                 = SF64sub (Prim2SF 1) (S754_finite false m e)).
    { now rewrite sub_spec, Es. }
    destruct (formula_value (S754_finite false m e) (1 - s)%float
                (1 - s + cc.THRESHOLD)%float N V B2 Eu (add_spec _ _))
      as [Nw Sw].
    rewrite (times_1700 (1 - s + cc.THRESHOLD)%float _ true Nw).
    + unfold magnitude. now rewrite Sw.
    + rewrite Sw. apply inner_bounds.
      pose proof (SFV_nonneg (S754_finite false m e)). lia.
    + now rewrite mul_spec.
Qed.

Lemma magnitude_at_threshold : magnitude threshold = 1700.
Proof. vm_compute. reflexivity. Qed.

Lemma magnitude_at_one : magnitude one = 119.
Proof. vm_compute. reflexivity. Qed.

Lemma signed16_decode (r : Z) :
  -1700 <= r <= 1700 ->
  Wire.decode16 ((r / 256) mod 256) (r mod 256) = r.
Proof.
  intro H. apply decode16_encode16. unfold Wire.signed16. lia.
Qed.

(** For a stick reading of magnitude at most 1 the radius bytes are
    always computed, and they are bytes. *)
Lemma radius_bytes_defined (c : controller.sample) :
  (abs (controller.axis0 c) <=? 1)%float = true ->
  exists hi lo,
    cf.apply_turning_radius (controller.poll_sticks c) cc.THRESHOLD
      cc.MIN_RADIUS cc.MAX_RADIUS
    = inr [Py.Int hi; Py.Int lo]
    /\ 0 <= hi < 256 /\ 0 <= lo < 256.
Proof.
  intro U. unfold controller.poll_sticks.
  destruct (abs (controller.axis0 c) <? cc.THRESHOLD)%float eqn:D.
  - exists 128, 0. split; [reflexivity|lia].
  - pose proof (leb_total _ cc.THRESHOLD _ U eq_refl D) as L.
    destruct (magnitude_in_range _ L U) as (m & e & E & _ & B).
    destruct (radius_of_steer _ m e E B) as [Z0 R].
    unfold cf.apply_turning_radius. rewrite Z0, R. cbn [try_bind].
    unfold cf.byte_pair. cbn [app]. eexists _, _.
    split; [reflexivity|].
    split; apply Z.mod_pos_bound; lia.
Qed.

(** C5, as the code has it.  Take two stick positions whose
    magnitudes lie between the threshold and 1, the first no larger
    than the second.  [apply_turning_radius] returns for each a byte
    pair that decodes, as a big-endian two's-complement 16-bit number,
    to its radius; the radius is negative for a stick pushed right
    (positive steer) and positive for a stick pushed left: the sign is
    the opposite of the steer's; and the magnitude of the radius does
    not grow with the magnitude of the steer: it goes from 1700 at the
    threshold down to 119 at full deflection. *)
Theorem radius_sign_and_magnitude (s t : float) :
  (cc.THRESHOLD <=? abs s)%float = true ->
  (abs s <=? abs t)%float = true ->
  (abs t <=? 1)%float = true ->
  exists rs rt,
    cf.apply_turning_radius s cc.THRESHOLD cc.MIN_RADIUS cc.MAX_RADIUS
    = inr [Py.Int ((rs / 256) mod 256); Py.Int (rs mod 256)]
    /\ cf.apply_turning_radius t cc.THRESHOLD cc.MIN_RADIUS cc.MAX_RADIUS
       = inr [Py.Int ((rt / 256) mod 256); Py.Int (rt mod 256)]
    /\ Wire.decode16 ((rs / 256) mod 256) (rs mod 256) = rs
    /\ Wire.decode16 ((rt / 256) mod 256) (rt mod 256) = rt
    /\ ((0 <? s)%float = true -> rs < 0)
    /\ ((s <? 0)%float = true -> 0 < rs)
    /\ ((0 <? t)%float = true -> rt < 0)
    /\ ((t <? 0)%float = true -> 0 < rt)
    /\ 119 <= Z.abs rt <= Z.abs rs
    /\ Z.abs rs <= 1700
    /\ cf.turning_radius cc.THRESHOLD cc.THRESHOLD
         cc.MIN_RADIUS cc.MAX_RADIUS = inr (-1700)
    /\ cf.turning_radius 1 cc.THRESHOLD cc.MIN_RADIUS cc.MAX_RADIUS
       = inr (-119).
Proof.
  intros L M U.
  destruct (magnitudes_in_range _ _ L M U)
    as (ms & es & mt & et & Es & Et & B1 & B2 & B3).
  destruct (radius_of_steer s ms es Es ltac:(lia)) as [Zs Rs].
  destruct (radius_of_steer t mt et Et B3) as [Zt Rt].
  rewrite Es in Rs. rewrite Et in Rt.
  set (vs := SFV (S754_finite false ms es)) in *.
  set (vt := SFV (S754_finite false mt et)) in *.
  pose proof threshold_le_one as T.
  pose proof (magnitude_antitone threshold vs ltac:(lia) ltac:(lia)) as A1.
  pose proof (magnitude_antitone vs vt ltac:(lia) B3) as A2.
  pose proof (magnitude_antitone vt one ltac:(lia) ltac:(lia)) as A3.
  rewrite magnitude_at_threshold in A1. rewrite magnitude_at_one in A3.
  exists (if (0 <? s)%float then - magnitude vs else magnitude vs),
         (if (0 <? t)%float then - magnitude vt else magnitude vt).
  unfold cf.apply_turning_radius. rewrite Zs, Zt, Rs, Rt.
  cbn [try_bind]. unfold cf.byte_pair. cbn [app].
  split; [reflexivity|]. split; [reflexivity|].
  split; [apply signed16_decode; destruct (0 <? s)%float; lia|].
  split; [apply signed16_decode; destruct (0 <? t)%float; lia|].
  split; [intros ->; lia|].
  split; [intro H; rewrite (ltb_asym _ _ H); lia|].
  split; [intros ->; lia|].
  split; [intro H; rewrite (ltb_asym _ _ H); lia|].
  split; [destruct (0 <? s)%float, (0 <? t)%float; lia|].
  split; [destruct (0 <? s)%float; lia|].
  split; reflexivity.
Qed.

End Steer.

Section SteerExamples.

Lemma radius_sign_and_magnitude_witness :
  exists rs rt,
    cf.apply_turning_radius 0.5 cc.THRESHOLD cc.MIN_RADIUS cc.MAX_RADIUS
    = inr [Py.Int ((rs / 256) mod 256); Py.Int (rs mod 256)]
    /\ cf.apply_turning_radius (-1) cc.THRESHOLD cc.MIN_RADIUS cc.MAX_RADIUS
       = inr [Py.Int ((rt / 256) mod 256); Py.Int (rt mod 256)]
    /\ 119 <= Z.abs rt <= Z.abs rs.
Proof.
  destruct (radius_sign_and_magnitude 0.5 (-1) eq_refl eq_refl eq_refl)
    as (rs & rt & Hs & Ht & _ & _ & _ & _ & _ & _ & H & _).
  now exists rs, rt.
Defined.

(** C5, refuted as worded: a stick pushed right (steer 0.5) gets a
    negative radius and a stick pushed left (steer -0.5) a positive
    one, so the sign of the decoded radius is not the sign of the
    steer. *)
Lemma radius_sign_is_opposite_to_steer :
  cf.apply_turning_radius 0.5 cc.THRESHOLD cc.MIN_RADIUS cc.MAX_RADIUS
  = inr [Py.Int 252; Py.Int 55]
  /\ Wire.decode16 252 55 = -969
  /\ cf.apply_turning_radius (-0.5) cc.THRESHOLD cc.MIN_RADIUS cc.MAX_RADIUS
     = inr [Py.Int 3; Py.Int 201]
  /\ Wire.decode16 3 201 = 969.
Proof. repeat split. Qed.

End SteerExamples.

(** ** The collision check *)

Section Collision.

Lemma load_name_cc (p : Serial.port) :
  cf.load_name "cc" p = (inl (Py.NameError "cc"), p).
Proof. reflexivity. Qed.

Lemma detect_front_collision_raises (used_invincibility_item : bool)
    (wobble_duration : float) (p : Serial.port) :
  cf.detect_front_collision used_invincibility_item wobble_duration p
  = (inl (Py.NameError "cc"), p).
Proof.
  unfold cf.detect_front_collision, Serial.bind.
  now rewrite load_name_cc.
Qed.

(** C4, on the code as written.  The collision check stops at its
    first statement: the name [cc] is unbound in
    [controller_functions.py], so whatever the bumper byte waiting in
    the port and whatever the star flag, the call raises [NameError]
    before it polls, and the log gains neither the poll nor any step of
    the wobble. *)
Theorem detect_front_collision_never_polls
    (used_invincibility_item : bool) (wobble_duration : float)
    (p : Serial.port) :
  cf.detect_front_collision used_invincibility_item wobble_duration p
  = (inl (Py.NameError "cc"), p)
  /\ Serial.log
       (snd (cf.detect_front_collision used_invincibility_item
               wobble_duration p))
     = Serial.log p.
Proof.
  rewrite detect_front_collision_raises. now split.
Qed.

(** The loop of the function taken by itself, which no call reaches:
    [n] times the two patterns, each followed by its pause. *)
Lemma wobble_log (n : nat) (d : float) (p : Serial.port) :
  cf.wobble n d p
  = (inr tt,
     {| Serial.rx := Serial.rx p;
        Serial.log := Serial.log p
                      ++ Trace.wobble_steps n (d / Py.float_of_Z 6) |}).
Proof.
  revert p. induction n as [|n IH]; intro p.
  - simpl. rewrite app_nil_r. now destruct p.
  - cbn [cf.wobble Trace.wobble_steps].
    unfold Serial.bind at 1 2 3 4.
    cbn [Serial.write Serial.sleep].
    rewrite IH. unfold Serial.emit, Trace.half_step.
    cbn [Serial.rx Serial.log].
    now rewrite <- !app_assoc.
Qed.

Lemma wobble_steps_length (n : nat) (d : float) :
  List.length (Trace.wobble_steps n d) = (4 * n)%nat.
Proof.
  induction n as [|n IH]; [reflexivity|].
  cbn [Trace.wobble_steps Trace.half_step app List.length].
  rewrite IH. lia.
Qed.

Lemma wobble_steps_drives (n : nat) (d : float) :
  Trace.drives (Trace.wobble_steps n d) = (2 * n)%nat.
Proof.
  unfold Trace.drives.
  induction n as [|n IH]; [reflexivity|].
  cbn [Trace.wobble_steps Trace.half_step app filter Trace.is_drive
       cf.WOBBLE_LEFT cf.WOBBLE_RIGHT List.length].
  rewrite IH. lia.
Qed.

(** C8, on the code as written.  The six writes and their pauses are
    never sent.  Whatever waits in the port, whatever the star flag and
    the duration, the collision check raises [NameError] at its first
    statement, for the name [cc] that [controller_functions.py] does
    not bind: it returns with the port as it found it, so the log
    gains no drive write and no pause, and a pass with the collision
    check on ends there, before its own poll.  So it is at the
    triggering input: no star in use, the duration of 1.2 s, and a
    port whose next answer is the byte 1, a bumper bit set. *)
Theorem triggered_wobble_writes_nothing
    (used_invincibility_item : bool) (wobble_duration : float)
    (p : Serial.port) (c : controller.sample) (g : controller.globals) :
  let r := cf.detect_front_collision used_invincibility_item
             wobble_duration p in
  fst r = inl (Py.NameError "cc")
  /\ Trace.drives (Serial.log (snd r)) = Trace.drives (Serial.log p)
  /\ Trace.sleeps (Serial.log (snd r)) = Trace.sleeps (Serial.log p)
  /\ Serial.rx (snd r) = Serial.rx p
  /\ controller.tick true c g p = (inl (Py.NameError "cc"), p)
  /\ Py.truthy (Z.land 1 3) && negb false = true
  /\ cf.detect_front_collision false cc.WOBBLE_DURATION
       (Serial.mkPort [[1]] [])
     = (inl (Py.NameError "cc"), Serial.mkPort [[1]] []).
Proof.
  intro r. subst r. rewrite detect_front_collision_raises.
  cbn [fst snd]. repeat split.
Qed.

End Collision.

(** ** Item acquisition *)

Section Items.

Import controller.

Lemma item_generation_holding (wheel_dropped : Z) (generated_item : cc.item)
    (g : globals) :
  has_mushroom g || has_star g = true ->
  item_generation wheel_dropped generated_item g = g.
Proof.
  intro H. unfold item_generation. rewrite H. cbn [negb].
  rewrite !andb_false_r. now destruct (Py.truthy wheel_dropped).
Qed.

Lemma item_generation_empty_handed (wheel_dropped : Z)
    (generated_item : cc.item) (g : globals) :
  has_mushroom g || has_star g = false ->
  Py.truthy wheel_dropped = true ->
  Stage.held (item_generation wheel_dropped generated_item g)
  = Some generated_item.
Proof.
  intros H T. unfold item_generation, Stage.held. rewrite H, T.
  apply orb_false_elim in H as [Hm Hs].
  destruct generated_item; cbn; [reflexivity|].
  now rewrite Hm.
Qed.

(** C2, as the code has it.  While an item is held, a wheel drop is a
    no-op: the variables are unchanged whatever the sensor value and
    the item drawn, and so any series of wheel drops leaves the held
    item as it is.  With nothing held, a wheel drop puts the drawn item
    in hand, whether or not an item is in use. *)
Theorem wheel_drop_noop_while_holding (g : globals) (wheel_dropped : Z)
    (generated_item : cc.item) (events : list (Z * cc.item)) :
  (has_mushroom g || has_star g = true ->
   item_generation wheel_dropped generated_item g = g
   /\ Stage.wheel_drops events g = g
   /\ Stage.held (Stage.wheel_drops events g) = Stage.held g)
  /\ (has_mushroom g || has_star g = false ->
      Py.truthy wheel_dropped = true ->
      Stage.held (item_generation wheel_dropped generated_item g)
      = Some generated_item).
Proof.
  split.
  - intro H.
    assert (E : Stage.wheel_drops events g = g).
    { unfold Stage.wheel_drops.
      induction events as [|[w i] events IH]; [reflexivity|].
      cbn [fold_left fst snd]. now rewrite item_generation_holding. }
    split; [|split].
    + now apply item_generation_holding.
    + exact E.
    + now rewrite E.
  - apply item_generation_empty_handed.
Qed.

Lemma wheel_drop_noop_while_holding_witness :
  Stage.wheel_drops [(4, cc.star); (8, cc.star); (12, cc.mushroom)]
    (mkGlobals true false false true 2 (Some 10%float))
  = mkGlobals true false false true 2 (Some 10%float)
  /\ Stage.held
       (item_generation 8 cc.star
          (mkGlobals false false true false 1 (Some 10%float)))
     = Some cc.star.
Proof.
  split.
  - apply (proj1 (wheel_drop_noop_while_holding
                    (mkGlobals true false false true 2 (Some 10%float))
                    4 cc.star
                    [(4, cc.star); (8, cc.star); (12, cc.mushroom)])).
    reflexivity.
  - apply (proj2 (wheel_drop_noop_while_holding
                    (mkGlobals false false true false 1 (Some 10%float))
                    8 cc.star [])); reflexivity.
Defined.

(** C2, refuted as worded: with a star in use and nothing in hand, a
    wheel drop does put an item in hand. *)
Lemma wheel_drop_during_star_grants_item :
  let g := mkGlobals false false false true 2 (Some 10%float) in
  Stage.held g = None
  /\ used_star g = true
  /\ Stage.held (item_generation 4 cc.mushroom g) = Some cc.mushroom
  /\ item_generation 4 cc.mushroom g <> g.
Proof. repeat split. discriminate. Qed.

End Items.

(** ** Item effects and their expiry *)

Section Effects.

Import controller.

Lemma item_effects_no_item (g : globals) (df db : bool)
    (rt lt now : float) :
  used_mushroom g = false -> used_star g = false ->
  item_effects df db rt lt now g
  = (v <~ trigger_velocity cc.MAX_VELOCITY_NO_ITEMS df db rt lt ;;
     inr (v, set_elapsed_time 0 g)).
Proof.
  intros Hm Hs. unfold item_effects. now rewrite Hm, Hs.
Qed.

Lemma item_effects_boost (g : globals) (t0 : float) (df db : bool)
    (rt lt now : float) :
  used_mushroom g = true -> time_item_used g = Some t0 ->
  (elapsed_time g <? cc.MUSHROOM_DURATION)%float = true ->
  item_effects df db rt lt now g
  = inr (Py.Int cc.MAX_VELOCITY_W_SHROOM, set_elapsed_time (now - t0) g).
Proof.
  intros Hm Ht He. unfold item_effects, load_time_item_used.
  now rewrite Hm, He, Ht.
Qed.

Lemma item_effects_expiry (g : globals) (df db : bool)
    (rt lt now : float) :
  used_mushroom g = true ->
  (cc.MUSHROOM_DURATION <? elapsed_time g)%float = true ->
  item_effects df db rt lt now g = inr (Py.Float 0, clear_used_mushroom g).
Proof.
  intros Hm He. unfold item_effects.
  rewrite Hm, He, (ltb_asym _ _ He). reflexivity.
Qed.

End Effects.

(** ** One pass of the main loop *)

Section Pass.

Import controller.

(** Without the collision check a pass is: the poll, its answer, and
    then either an exception or one drive packet. *)
Lemma tick_without_wobble (c : sample) (g : globals) (p : Serial.port) :
  tick false c g p
  = match firstn 1 (hd [] (Serial.rx p)) with
    | [] => (inl Py.IndexError, Stage.polled p)
    | b :: _ =>
        match Stage.drive_packet c g b with
        | inl e => (inl e, Stage.polled p)
        | inr (packet, g') =>
            (inr g', Serial.emit (Serial.Write packet) (Stage.polled p))
        end
    end.
Proof.
  unfold tick, Stage.drive_packet, Stage.polled, Stage.after_items.
  destruct (poll_triggers c) as [df db].
  unfold Serial.bind at 1. cbn [Serial.ret].
  unfold Serial.bind at 1. cbn [Serial.write].
  unfold Serial.bind at 1. cbn [Serial.read].
  unfold Serial.emit. cbn [Serial.rx Serial.log].
  rewrite <- app_assoc. cbn [app].
  destruct (firstn 1 (hd [] (Serial.rx p))) as [|b rest]; [reflexivity|].
  unfold Serial.bind at 1. cbn [Serial.first_byte Serial.ret].
  unfold Serial.bind at 1. unfold Serial.lift at 1.
  destruct (item_effects df db (axis5 c) (axis2 c) (time_at_effects c) _)
    as [e|[velocity g']]; [reflexivity|].
  cbn [try_bind].
  unfold Serial.bind at 1. unfold Serial.lift at 1.
  destruct (velocity_bytes velocity) as [e|vbytes]; [reflexivity|].
  cbn [try_bind].
  unfold Serial.bind at 1. unfold Serial.lift at 1.
  destruct (cf.apply_turning_radius _ _ _ _) as [e|radius_bytes];
    [reflexivity|].
  cbn [try_bind].
  unfold Serial.bind at 1. unfold drive.
  unfold Serial.bind at 1. unfold Serial.lift at 1.
  destruct (Py.bytearray _) as [e|packet]; reflexivity.
Qed.

(** With the collision check a pass ends at once. *)
Lemma tick_with_wobble (c : sample) (g : globals) (p : Serial.port) :
  tick true c g p = (inl (Py.NameError "cc"), p).
Proof.
  unfold tick. destruct (poll_triggers c) as [df db].
  unfold Serial.bind at 1.
  now rewrite detect_front_collision_raises.
Qed.

Lemma bytearray_drive_head (items : list Py.value) (packet : list Z) :
  Py.bytearray (cc.DRIVE ++ items) = inr packet ->
  exists rest, packet = 137 :: rest.
Proof.
  cbn. destruct (Py.bytearray items) as [e|bs]; [discriminate|].
  intro H. injection H as <-. now exists bs.
Qed.

Lemma drive_packet_head (c : sample) (g g' : globals) (b : Z)
    (packet : list Z) :
  Stage.drive_packet c g b = inr (packet, g') ->
  exists rest, packet = 137 :: rest.
Proof.
  unfold Stage.drive_packet.
  destruct (poll_triggers c) as [df db].
  destruct (item_effects _ _ _ _ _ _) as [e|[velocity g1]];
    [discriminate|].
  cbn [try_bind].
  destruct (velocity_bytes velocity) as [e|vbytes]; [discriminate|].
  cbn [try_bind].
  destruct (cf.apply_turning_radius _ _ _ _) as [e|radius_bytes];
    [discriminate|].
  cbn [try_bind].
  destruct (Py.bytearray _) as [e|pk] eqn:E; [discriminate|].
  cbn [try_bind]. intro H. injection H as <- _.
  now apply bytearray_drive_head in E.
Qed.

Lemma bytearray_inr (items : list Py.value) (bs : list Z) :
  Py.bytearray items = inr bs ->
  items = map Py.Int bs /\ Forall (fun z => 0 <= z < 256) bs.
Proof.
  revert bs. induction items as [|[z|f] items IH]; intros bs H.
  - injection H as <-. now split.
  - cbn [Py.bytearray] in H.
    destruct (Z.leb_spec 0 z); [|discriminate].
    destruct (Z.ltb_spec z 256); [|discriminate].
    cbn [andb] in H.
    destruct (Py.bytearray items) as [e|bs']; [discriminate|].
    injection H as <-. destruct (IH bs' eq_refl) as [-> F].
    split; [reflexivity|]. constructor; [lia|exact F].
  - discriminate H.
Qed.

Lemma velocity_bytes_pair (velocity : Py.value) (vbytes : list Py.value) :
  velocity_bytes velocity = inr vbytes -> exists hi lo, vbytes = [hi; lo].
Proof.
  unfold velocity_bytes.
  destruct (Py.floordiv velocity 256) as [e|q]; [discriminate|].
  cbn [try_bind].
  destruct (Py.modulo q 256) as [e|hi]; [discriminate|].
  cbn [try_bind].
  destruct (Py.modulo velocity 256) as [e|lo]; [discriminate|].
  cbn [try_bind app]. intro H. injection H as <-. now exists hi, lo.
Qed.

Lemma radius_bytes_pair (stick threshold : float) (min_rad max_rad : Z)
    (radius_bytes : list Py.value) :
  cf.apply_turning_radius stick threshold min_rad max_rad
  = inr radius_bytes ->
  exists hi lo, radius_bytes = [hi; lo].
Proof.
  unfold cf.apply_turning_radius, cf.byte_pair.
  destruct (stick =? 0)%float.
  - intro H. injection H as <-. eauto.
  - destruct (cf.turning_radius _ _ _ _) as [e|rad]; [discriminate|].
    cbn [try_bind app]. intro H. injection H as <-. eauto.
Qed.

(** A pass that returns has written one drive packet of five bytes,
    [137, vel_hi, vel_lo, rad_hi, rad_lo], after the poll and its
    answer. *)
Lemma returning_pass_drives_once (w : bool) (c : sample) (g g' : globals)
    (p p' : Serial.port) :
  tick w c g p = (inr g', p') ->
  exists b vh vl rh rl,
    Serial.log p'
    = Serial.log p
      ++ [Serial.Write cc.POLL_BUMPERS_AND_DROPS; Serial.Read 1 [b];
          Serial.Write [137; vh; vl; rh; rl]]
    /\ Forall (fun z => 0 <= z < 256) [vh; vl; rh; rl].
Proof.
  destruct w; [rewrite tick_with_wobble; discriminate|].
  rewrite tick_without_wobble. unfold Stage.polled.
  destruct (hd [] (Serial.rx p)) as [|b more]; cbn [firstn];
    [discriminate|].
  destruct (Stage.drive_packet c g b) as [e|[packet g1]] eqn:D;
    [discriminate|].
  intro H. injection H as _ <-.
  unfold Stage.drive_packet in D.
  destruct (poll_triggers c) as [df db].
  destruct (item_effects _ _ _ _ _ _) as [e|[v g2]]; [discriminate|].
  cbn [try_bind] in D.
  destruct (velocity_bytes v) as [e|vb] eqn:V; [discriminate|].
  cbn [try_bind] in D.
  destruct (cf.apply_turning_radius _ _ _ _) as [e|rb] eqn:R;
    [discriminate|].
  cbn [try_bind] in D.
  destruct (Py.bytearray _) as [e|pk] eqn:B; [discriminate|].
  cbn [try_bind] in D. injection D as <- _.
  destruct (velocity_bytes_pair _ _ V) as (h1 & l1 & ->).
  destruct (radius_bytes_pair _ _ _ _ _ R) as (h2 & l2 & ->).
  destruct (bytearray_inr _ _ B) as [E F].
  destruct pk as [|z0 [|z1 [|z2 [|z3 [|z4 [|z5 pk]]]]]];
    try discriminate E.
  cbn in E. injection E as <- _ _ _ _.
  exists b, z1, z2, z3, z4.
  cbn [Serial.emit Serial.log Serial.rx].
  rewrite <- app_assoc. split; [reflexivity|].
  now inversion F.
Qed.

(** C6.  For signed 16-bit [v] and [r] the byte pair that the code
    computes for the velocity and for the radius is the big-endian
    two's-complement encoding (it decodes back to the value), the
    packet handed to the port is [137, vel_hi, vel_lo, rad_hi, rad_lo]
    (and every pass that returns has written one packet of that
    form), and a stick at 0.5 with threshold 0.07 and radii -1700/1700 gives
    the radius -969 in that encoding. *)
Theorem byte_pair_is_big_endian_twos_complement (v r : Z) :
  Wire.signed16 v -> Wire.signed16 r ->
  velocity_bytes (Py.Int v) = inr (map Py.Int (Wire.encode16 v))
  /\ cf.byte_pair r = map Py.Int (Wire.encode16 r)
  /\ (exists vh vl rh rl,
         Wire.encode16 v = [vh; vl] /\ Wire.encode16 r = [rh; rl]
         /\ Wire.decode16 vh vl = v /\ Wire.decode16 rh rl = r
         /\ forall p,
             drive (map Py.Int (Wire.encode16 v))
               (cf.byte_pair r) p
             = (inr tt, Serial.emit (Serial.Write [137; vh; vl; rh; rl]) p))
  /\ (forall w c g g' p p',
         tick w c g p = (inr g', p') ->
         exists b vh vl rh rl,
           Serial.log p'
           = Serial.log p
             ++ [Serial.Write cc.POLL_BUMPERS_AND_DROPS; Serial.Read 1 [b];
                 Serial.Write [137; vh; vl; rh; rl]]
           /\ Forall (fun z => 0 <= z < 256) [vh; vl; rh; rl])
  /\ cf.turning_radius 0.5 0.07 (-1700) 1700 = inr (-969)
  /\ cf.apply_turning_radius 0.5 0.07 (-1700) 1700
     = inr (map Py.Int (Wire.encode16 (-969))).
Proof.
  intros Hv Hr.
  rewrite (encode16_div_mod v Hv), (encode16_div_mod r Hr).
  split; [apply velocity_bytes_int|].
  split; [reflexivity|].
  split; [|split; [exact returning_pass_drives_once|split; reflexivity]].
  exists ((v / 256) mod 256), (v mod 256), ((r / 256) mod 256), (r mod 256).
  repeat split; try apply decode16_encode16; try assumption.
  intro p. unfold drive, Serial.bind, Serial.lift, cf.byte_pair.
  change (cc.DRIVE ++ map Py.Int [(v / 256) mod 256; v mod 256]
            ++ [Py.Int ((r / 256) mod 256)] ++ [Py.Int (r mod 256)])
    with (map Py.Int [137; (v / 256) mod 256; v mod 256;
                      (r / 256) mod 256; r mod 256]).
  rewrite bytearray_of_bytes; [reflexivity|].
  repeat constructor; try lia; apply Z.mod_pos_bound; lia.
Qed.

Lemma byte_pair_is_big_endian_twos_complement_witness :
  velocity_bytes (Py.Int 300) = inr [Py.Int 1; Py.Int 44]
  /\ cf.byte_pair (-969) = [Py.Int 252; Py.Int 55].
Proof.
  assert (Hv : Wire.signed16 300) by (unfold Wire.signed16; lia).
  assert (Hr : Wire.signed16 (-969)) by (unfold Wire.signed16; lia).
  destruct (byte_pair_is_big_endian_twos_complement 300 (-969) Hv Hr)
    as [H1 [H2 _]].
  split; [exact H1 | exact H2].
Defined.

(** C7, as the code has it.  A pass without the collision check
    makes exactly one round trip: it writes the poll command, reads
    one byte's worth right after, and whatever follows in the pass is
    neither a poll nor a read. *)
Theorem one_round_trip_without_wobble (c : sample) (g : globals)
    (p : Serial.port) :
  exists got tail,
    Serial.log (snd (tick false c g p))
    = Serial.log p
      ++ Serial.Write cc.POLL_BUMPERS_AND_DROPS :: Serial.Read 1 got :: tail
    /\ Trace.polls tail = 0%nat
    /\ Trace.reads tail = 0%nat.
Proof.
  rewrite tick_without_wobble. unfold Stage.polled.
  exists (firstn 1 (hd [] (Serial.rx p))).
  destruct (firstn 1 (hd [] (Serial.rx p))) as [|b rest].
  - exists []. cbn [snd Serial.log]. now repeat split.
  - destruct (Stage.drive_packet c g b) as [e|[packet g']] eqn:D.
    + exists []. cbn [snd Serial.log]. now repeat split.
    + destruct (drive_packet_head _ _ _ _ _ D) as [tl' ->].
      exists [Serial.Write (137 :: tl')].
      cbn [snd Serial.log Serial.emit].
      rewrite <- app_assoc. now repeat split.
Qed.

(** C7, refuted as worded: with wobble enabled a pass completes no
    round trip at all. *)
Lemma no_round_trip_with_wobble :
  let c := mkSample 0 1 (-1) false cc.mushroom 0 0 in
  let p := Serial.mkPort [[0]; [0]] [] in
  tick true c initial p = (inl (Py.NameError "cc"), p)
  /\ Trace.polls (Serial.log (snd (tick true c initial p))) = 0%nat
  /\ Trace.reads (Serial.log (snd (tick true c initial p))) = 0%nat.
Proof. repeat split. Qed.

End Pass.

(** ** The variables stay well bound *)

Section Bound.

Import controller.

Lemma time_bound_initial : Stage.time_bound initial.
Proof. unfold Stage.time_bound. cbn. discriminate. Qed.

Lemma time_bound_generation (w : Z) (i : cc.item) (g : globals) :
  Stage.time_bound g -> Stage.time_bound (item_generation w i g).
Proof.
  unfold Stage.time_bound, item_generation.
  destruct (Py.truthy w); [|tauto].
  destruct (item_eqb i cc.mushroom && _); [cbn; tauto|].
  destruct (item_eqb i cc.star && _); [cbn; tauto|tauto].
Qed.

Lemma time_bound_usage (u : bool) (t : float) (g : globals) :
  Stage.time_bound g -> Stage.time_bound (item_usage u t g).
Proof.
  unfold Stage.time_bound, item_usage.
  destruct (has_mushroom g && u); [cbn; discriminate|].
  destruct (has_star g && u); [cbn; discriminate|tauto].
Qed.

Lemma time_bound_after_items (c : sample) (g : globals) (b : Z) :
  Stage.time_bound g -> Stage.time_bound (Stage.after_items c g b).
Proof.
  intro H. unfold Stage.after_items.
  now apply time_bound_usage, time_bound_generation.
Qed.

Lemma time_bound_effects (df db : bool) (rt lt now : float)
    (g g' : globals) (v : Py.value) :
  item_effects df db rt lt now g = inr (v, g') ->
  Stage.time_bound g -> Stage.time_bound g'.
Proof.
  unfold item_effects, Stage.time_bound, load_time_item_used.
  intros H B.
  destruct (used_mushroom g) eqn:Um, (used_star g) eqn:Us;
    cbn [orb andb] in H;
    repeat match type of H with
      | context [if ?b then _ else _] => destruct b
      | context [try_bind ?r _] =>
          let E := fresh "E" in destruct r eqn:E; cbn [try_bind] in H
      | context [match ?o with Some _ => _ | None => _ end] =>
          let E := fresh "E" in destruct o eqn:E
      end;
    try discriminate H; injection H as <- <-; cbn;
    try rewrite Um; try rewrite Us; cbn; intro; try discriminate;
    apply B; reflexivity.
Qed.

Lemma time_bound_tick (w : bool) (c : sample) (g g' : globals)
    (p p' : Serial.port) :
  tick w c g p = (inr g', p') ->
  Stage.time_bound g -> Stage.time_bound g'.
Proof.
  destruct w.
  - rewrite tick_with_wobble. discriminate.
  - rewrite tick_without_wobble. intros H B.
    destruct (firstn 1 (hd [] (Serial.rx p))) as [|b more];
      [discriminate|].
    destruct (Stage.drive_packet c g b) as [e|[packet g1]] eqn:D;
      [discriminate|].
    injection H as <- _.
    unfold Stage.drive_packet in D.
    destruct (poll_triggers c) as [df db].
    destruct (item_effects _ _ _ _ _ _) as [e|[v g2]] eqn:E;
      [discriminate|].
    cbn [try_bind] in D.
    destruct (velocity_bytes v); [discriminate|]. cbn [try_bind] in D.
    destruct (cf.apply_turning_radius _ _ _ _); [discriminate|].
    cbn [try_bind] in D.
    destruct (Py.bytearray _); [discriminate|]. cbn [try_bind] in D.
    injection D as _ <-.
    apply (time_bound_effects _ _ _ _ _ _ _ _ E).
    now apply time_bound_after_items.
Qed.

(** Every state that the main loop reaches is well bound. *)
Lemma time_bound_run (w : bool) (samples : list sample) (g g' : globals)
    (p p' : Serial.port) :
  run w samples g p = (inr g', p') ->
  Stage.time_bound g -> Stage.time_bound g'.
Proof.
  revert g p. induction samples as [|c rest IH]; intros g p.
  - cbn. intro H. now injection H as <- _.
  - cbn [run]. unfold Serial.bind.
    destruct (tick w c g p) as [[e|g1] p1] eqn:T; [discriminate|].
    intros H B. apply (IH _ _ H).
    now apply (time_bound_tick _ _ _ _ _ _ T).
Qed.

End Bound.

(** ** A pass at rest *)

Section Rest.

Import controller.

Lemma item_effects_at_rest (g : globals) (rt lt now : float) :
  Stage.time_bound g ->
  used_mushroom g && (elapsed_time g <? cc.MUSHROOM_DURATION)%float = false ->
  exists g',
    item_effects false false rt lt now g = inr (Py.Float 0, g').
Proof.
  unfold Stage.time_bound, item_effects, load_time_item_used.
  intros B N. rewrite N.
  destruct (used_mushroom g || used_star g) eqn:U.
  - destruct (used_mushroom g && (cc.MUSHROOM_DURATION <? elapsed_time g)%float);
      [eauto|].
    destruct (used_star g && (elapsed_time g <? cc.STAR_DURATION)%float).
    + cbn [trigger_velocity try_bind].
      destruct (time_item_used g) as [t|]; cbn [try_bind]; [eauto|].
      exfalso. now apply B.
    + destruct (used_star g && _); eauto.
  - cbn [trigger_velocity try_bind]. eauto.
Qed.

(** C3.  Take a pass on which neither trigger passes the threshold
    and no mushroom boost applies (the stick reading being a proper
    axis value, of magnitude at most 1).  Then the velocity stays the
    float 0.0, both velocity bytes are floats, and [bytearray] raises
    [TypeError]: without the collision check the pass ends there, after
    the poll and its answer, with no drive command written; and
    whether the collision check is on or off the pass raises and
    writes no drive command. *)
Theorem rest_velocity_is_float_and_drive_fails (c : sample) (g : globals)
    (p : Serial.port) (b : Z) (more : list Z) :
  Stage.time_bound g ->
  hd [] (Serial.rx p) = b :: more ->
  (abs (axis0 c) <=? 1)%float = true ->
  poll_triggers c = (false, false) ->
  used_mushroom (Stage.after_items c g b)
  && (elapsed_time (Stage.after_items c g b) <? cc.MUSHROOM_DURATION)%float
  = false ->
  (exists g',
      item_effects false false (axis5 c) (axis2 c) (time_at_effects c)
        (Stage.after_items c g b)
      = inr (Py.Float 0, g'))
  /\ velocity_bytes (Py.Float 0) = inr [Py.Float 0; Py.Float 0]
  /\ (exists radius_bytes,
         cf.apply_turning_radius (poll_sticks c) cc.THRESHOLD
           cc.MIN_RADIUS cc.MAX_RADIUS = inr radius_bytes
         /\ Py.bytearray
              (cc.DRIVE ++ [Py.Float 0; Py.Float 0] ++ radius_bytes)
            = inl Py.TypeError)
  /\ tick false c g p
     = (inl Py.TypeError,
        {| Serial.rx := tl (Serial.rx p);
           Serial.log :=
             Serial.log p
             ++ [Serial.Write cc.POLL_BUMPERS_AND_DROPS;
                 Serial.Read 1 [b]] |})
  /\ forall using_wobble,
      exists e p',
        tick using_wobble c g p = (inl e, p')
        /\ Trace.drives (Serial.log p') = Trace.drives (Serial.log p).
Proof.
  intros B R S T N.
  destruct (item_effects_at_rest (Stage.after_items c g b)
              (axis5 c) (axis2 c) (time_at_effects c)
              (time_bound_after_items c g b B) N) as [g' E].
  destruct (radius_bytes_defined c S) as (hi & lo & A & _).
  assert (K : tick false c g p
              = (inl Py.TypeError,
                 {| Serial.rx := tl (Serial.rx p);
                    Serial.log :=
                      Serial.log p
                      ++ [Serial.Write cc.POLL_BUMPERS_AND_DROPS;
                          Serial.Read 1 [b]] |})).
  { rewrite tick_without_wobble. unfold Stage.polled. rewrite R.
    cbn [firstn]. unfold Stage.drive_packet. rewrite T, E.
    cbn [try_bind]. rewrite A. reflexivity. }
  split; [now exists g'|].
  split; [reflexivity|].
  split; [exists [Py.Int hi; Py.Int lo]; now split|].
  split; [exact K|].
  intros [|].
  - exists (Py.NameError "cc"), p. split; [apply tick_with_wobble|reflexivity].
  - eexists _, _. split; [exact K|].
    cbn [Serial.log]. unfold Trace.drives.
    rewrite filter_app, length_app. cbn. lia.
Qed.

Lemma rest_velocity_is_float_and_drive_fails_witness :
  tick false (mkSample 0 (-1) (-1) false cc.mushroom 0 0) initial
    (Serial.mkPort [[0]] [])
  = (inl Py.TypeError,
     Serial.mkPort []
       [Serial.Write cc.POLL_BUMPERS_AND_DROPS; Serial.Read 1 [0]]).
Proof.
  apply (rest_velocity_is_float_and_drive_fails
           (mkSample 0 (-1) (-1) false cc.mushroom 0 0) initial
           (Serial.mkPort [[0]] []) 0 []
           time_bound_initial eq_refl eq_refl eq_refl eq_refl).
Defined.

(** ** A poll that gets no answer *)

Lemma run_raises (w : bool) (c : sample) (rest : list sample)
    (g : globals) (p p' : Serial.port) (e : Py.exn) :
  tick w c g p = (inl e, p') -> run w (c :: rest) g p = (inl e, p').
Proof.
  intro H. cbn [run]. unfold Serial.bind. now rewrite H.
Qed.

(** C9, as the code has it.  When the read of the main loop returns
    no byte, indexing it raises [IndexError]: the rest of the pass is
    skipped (no item logic, no drive command), and since nothing
    catches the exception the run ends with it, however many passes
    were still to come. *)
Theorem empty_read_ends_the_run (c : sample) (rest : list sample)
    (g : globals) (p : Serial.port) :
  hd [] (Serial.rx p) = [] ->
  let p' := {| Serial.rx := tl (Serial.rx p);
               Serial.log :=
                 Serial.log p
                 ++ [Serial.Write cc.POLL_BUMPERS_AND_DROPS;
                     Serial.Read 1 []] |} in
  tick false c g p = (inl Py.IndexError, p')
  /\ run false (c :: rest) g p = (inl Py.IndexError, p')
  /\ Trace.drives (Serial.log p') = Trace.drives (Serial.log p)
  /\ Trace.polls (Serial.log p') = S (Trace.polls (Serial.log p)).
Proof.
  intros R p'.
  assert (K : tick false c g p = (inl Py.IndexError, p')).
  { rewrite tick_without_wobble. unfold Stage.polled. rewrite R.
    reflexivity. }
  split; [exact K|].
  split; [now apply run_raises|].
  subst p'. cbn [Serial.log]. unfold Trace.drives, Trace.polls.
  rewrite !filter_app, !length_app. cbn. lia.
Qed.

Lemma empty_read_ends_the_run_witness :
  run false
    [mkSample 0.5 1 (-1) false cc.mushroom 0 0;
     mkSample 0.5 1 (-1) false cc.mushroom 0 0]
    initial (Serial.mkPort [[]; [0]] [])
  = (inl Py.IndexError,
     Serial.mkPort [[0]]
       [Serial.Write cc.POLL_BUMPERS_AND_DROPS; Serial.Read 1 []]).
Proof.
  apply (empty_read_ends_the_run
           (mkSample 0.5 1 (-1) false cc.mushroom 0 0)
           [mkSample 0.5 1 (-1) false cc.mushroom 0 0]
           initial (Serial.mkPort [[]; [0]] []) eq_refl).
Defined.

(** C9, refuted as worded.  Two passes are due and the first poll gets
    no answer: the failure is not confined to the first pass, the run
    ends with the exception, and the second pass never polls (its
    answer is still waiting in the port), although on its own it
    would have driven. *)
Lemma empty_read_is_not_confined_to_the_pass :
  let c := mkSample 0.5 1 (-1) false cc.mushroom 0 0 in
  run false [c; c] initial (Serial.mkPort [[]; [0]] [])
  = (inl Py.IndexError,
     Serial.mkPort [[0]]
       [Serial.Write cc.POLL_BUMPERS_AND_DROPS; Serial.Read 1 []])
  /\ Trace.polls
       (Serial.log (snd (run false [c; c] initial
                           (Serial.mkPort [[]; [0]] [])))) = 1%nat
  /\ tick false c initial (Serial.mkPort [[0]] [])
     = (inr initial,
        Serial.mkPort []
          [Serial.Write cc.POLL_BUMPERS_AND_DROPS; Serial.Read 1 [0];
           Serial.Write [137; 1; 44; 252; 55]]).
Proof. repeat split. Qed.

End Rest.

(** ** The mushroom boost *)

Section Boost.

Import controller.

(** The drive packet of a boosted pass. *)
Lemma boosted_packet (hi lo : Z) :
  0 <= hi < 256 -> 0 <= lo < 256 ->
  Py.bytearray
    (cc.DRIVE ++ [Py.Int 1; Py.Int 244] ++ [Py.Int hi; Py.Int lo])
  = inr [137; 1; 244; hi; lo].
Proof.
  intros Hh Hl.
  change (cc.DRIVE ++ [Py.Int 1; Py.Int 244] ++ [Py.Int hi; Py.Int lo])
    with (map Py.Int [137; 1; 244; hi; lo]).
  apply bytearray_of_bytes. repeat constructor; lia.
Qed.

(** C1, as the code has it.  The test is made on the stored elapsed
    time, the one measured on the pass before.  With a mushroom in use
    and that stored time strictly below the duration, the item-effects
    block gives the boosted velocity whatever the triggers are, and
    re-measures the elapsed time as [now - time_item_used], whatever
    that comes to: the duration exactly, or more.  A pass that finds
    this state after its item step (the poll answered, the collision
    check off, the stick within its range) sends the boosted velocity,
    500 = [1, 244], in its drive packet, and stores the new elapsed
    time. *)
Theorem mushroom_boost_on_stored_elapsed_time (g : globals) (t0 : float) :
  used_mushroom g = true ->
  time_item_used g = Some t0 ->
  (elapsed_time g <? cc.MUSHROOM_DURATION)%float = true ->
  (forall df db rt lt now,
      item_effects df db rt lt now g
      = inr (Py.Int cc.MAX_VELOCITY_W_SHROOM, set_elapsed_time (now - t0) g))
  /\ velocity_bytes (Py.Int cc.MAX_VELOCITY_W_SHROOM)
     = inr [Py.Int 1; Py.Int 244]
  /\ forall (c : sample) (g0 : globals) (p : Serial.port) (b : Z)
            (more : list Z),
      hd [] (Serial.rx p) = b :: more ->
      (abs (axis0 c) <=? 1)%float = true ->
      Stage.after_items c g0 b = g ->
      exists rad_hi rad_lo,
        tick false c g0 p
        = (inr (set_elapsed_time (time_at_effects c - t0) g),
           {| Serial.rx := tl (Serial.rx p);
              Serial.log :=
                Serial.log p
                ++ [Serial.Write cc.POLL_BUMPERS_AND_DROPS;
                    Serial.Read 1 [b];
                    Serial.Write [137; 1; 244; rad_hi; rad_lo]] |}).
Proof.
  intros Hm Ht He.
  assert (E : forall df db rt lt now,
             item_effects df db rt lt now g
             = inr (Py.Int cc.MAX_VELOCITY_W_SHROOM,
                    set_elapsed_time (now - t0) g))
    by (intros; now apply item_effects_boost).
  split; [exact E|]. split; [reflexivity|].
  intros c g0 p b more R S A.
  destruct (radius_bytes_defined c S) as (hi & lo & Rb & Hh & Hl).
  exists hi, lo.
  rewrite tick_without_wobble. unfold Stage.polled. rewrite R.
  cbn [firstn]. unfold Stage.drive_packet.
  destruct (poll_triggers c) as [df db]. rewrite A, E.
  cbn [try_bind]. rewrite velocity_bytes_int.
  change ((cc.MAX_VELOCITY_W_SHROOM / 256) mod 256) with 1.
  change (cc.MAX_VELOCITY_W_SHROOM mod 256) with 244.
  cbn [try_bind]. rewrite Rb. cbn [try_bind].
  rewrite (boosted_packet hi lo Hh Hl). cbn [try_bind].
  unfold Serial.emit. cbn [Serial.rx Serial.log].
  rewrite <- app_assoc. reflexivity.
Qed.

Lemma mushroom_boost_on_stored_elapsed_time_witness :
  item_effects false true (-1) 1 101.5
    (mkGlobals false false true false 1.4 (Some 100%float))
  = inr (Py.Int 500, mkGlobals false false true false 1.5 (Some 100%float))
  /\ exists rad_hi rad_lo,
      tick false (mkSample 0 (-1) (-1) false cc.mushroom 0 101.5)
        (mkGlobals false false true false 1.4 (Some 100%float))
        (Serial.mkPort [[0]] [])
      = (inr (mkGlobals false false true false 1.5 (Some 100%float)),
         Serial.mkPort []
           [Serial.Write cc.POLL_BUMPERS_AND_DROPS; Serial.Read 1 [0];
            Serial.Write [137; 1; 244; rad_hi; rad_lo]]).
Proof.
  destruct (mushroom_boost_on_stored_elapsed_time
              (mkGlobals false false true false 1.4 (Some 100%float))
              100 eq_refl eq_refl eq_refl) as [E [_ T]].
  split.
  - exact (E false true (-1)%float 1%float 101.5%float).
  - exact (T (mkSample 0 (-1) (-1) false cc.mushroom 0 101.5)
             (mkGlobals false false true false 1.4 (Some 100%float))
             (Serial.mkPort [[0]] []) 0 [] eq_refl eq_refl eq_refl).
Defined.

(** C1, refuted as worded.  A mushroom is in use since t = 100, the
    forward trigger is held down, and the pass before measured an
    elapsed time of 1.4 s.  The pass at t = 101.625 is the first whose
    elapsed time, 1.625 s, has reached the duration of 1.5 s.  Its
    velocity is not the base trigger-proportional one, 300 = [1, 44]:
    it is still the boost, 500 = [1, 244], in the item-effects block
    and in the drive packet that the pass sends. *)
Lemma mushroom_boost_outlasts_duration :
  let g0 := mkGlobals false false true false 1.4 (Some 100%float) in
  let g1 := mkGlobals false false true false 1.625 (Some 100%float) in
  (1.4 <? cc.MUSHROOM_DURATION)%float = true
  /\ (cc.MUSHROOM_DURATION <=? 101.625 - 100)%float = true
  /\ trigger_velocity cc.MAX_VELOCITY_NO_ITEMS true false 1 (-1)
     = inr (Py.Int 300)
  /\ velocity_bytes (Py.Int 300) = inr [Py.Int 1; Py.Int 44]
  /\ item_effects true false 1 (-1) 101.625 g0 = inr (Py.Int 500, g1)
  /\ tick false (mkSample 0 1 (-1) false cc.mushroom 0 101.625) g0
       (Serial.mkPort [[0]] [])
     = (inr g1,
        Serial.mkPort []
          [Serial.Write cc.POLL_BUMPERS_AND_DROPS; Serial.Read 1 [0];
           Serial.Write [137; 1; 244; 128; 0]]).
Proof. repeat split. Qed.

End Boost.

(** ** One item at a time *)

Section Hand.

Import controller.

Lemma one_item_generation (w : Z) (i : cc.item) (g : globals) :
  Held.one_item g -> Held.one_item (item_generation w i g).
Proof.
  unfold Held.one_item, item_generation.
  destruct (Py.truthy w); [|tauto].
  destruct (has_mushroom g) eqn:Hm, (has_star g) eqn:Hs;
    destruct i; cbn; rewrite ?Hm, ?Hs; cbn; congruence.
Qed.

Lemma one_item_usage (u : bool) (t : float) (g : globals) :
  Held.one_item g -> Held.one_item (item_usage u t g).
Proof.
  unfold Held.one_item, item_usage.
  destruct (has_mushroom g) eqn:Hm, (has_star g) eqn:Hs, u; cbn;
    rewrite ?Hm, ?Hs; cbn; congruence.
Qed.

Lemma item_effects_keeps_hand (df db : bool) (rt lt now : float)
    (g g' : globals) (v : Py.value) :
  item_effects df db rt lt now g = inr (v, g') ->
  has_mushroom g' = has_mushroom g /\ has_star g' = has_star g.
Proof.
  unfold item_effects, load_time_item_used. intro H.
  repeat match type of H with
    | context [if ?b then _ else _] => destruct b
    | context [try_bind ?r _] =>
        let E := fresh "E" in destruct r eqn:E; cbn [try_bind] in H
    | context [match ?o with Some _ => _ | None => _ end] =>
        let E := fresh "E" in destruct o eqn:E
    end;
    try discriminate H; injection H as <- <-; now split.
Qed.

Lemma tick_returns (c : sample) (g g' : globals) (p p' : Serial.port) :
  tick false c g p = (inr g', p') ->
  exists b v,
    hd [] (Serial.rx p) <> []
    /\ item_effects (fst (poll_triggers c)) (snd (poll_triggers c))
         (axis5 c) (axis2 c) (time_at_effects c) (Stage.after_items c g b)
       = inr (v, g').
Proof.
  rewrite tick_without_wobble.
  destruct (hd [] (Serial.rx p)) as [|b more] eqn:R; cbn [firstn];
    [discriminate|].
  destruct (Stage.drive_packet c g b) as [e|[packet g1]] eqn:D;
    [discriminate|].
  intro H. injection H as <- _.
  unfold Stage.drive_packet in D.
  destruct (poll_triggers c) as [df db]. cbn [fst snd].
  destruct (item_effects _ _ _ _ _ _) as [e|[v g2]] eqn:E;
    [discriminate|].
  cbn [try_bind] in D.
  destruct (velocity_bytes v); [discriminate|]. cbn [try_bind] in D.
  destruct (cf.apply_turning_radius _ _ _ _); [discriminate|].
  cbn [try_bind] in D.
  destruct (Py.bytearray _); [discriminate|]. cbn [try_bind] in D.
  injection D as _ <-.
  exists b, v. split; [discriminate|exact E].
Qed.

Lemma one_item_tick (w : bool) (c : sample) (g g' : globals)
    (p p' : Serial.port) :
  tick w c g p = (inr g', p') -> Held.one_item g -> Held.one_item g'.
Proof.
  destruct w; [rewrite tick_with_wobble; discriminate|].
  intros T H. destruct (tick_returns _ _ _ _ _ T) as (b & v & _ & E).
  destruct (item_effects_keeps_hand _ _ _ _ _ _ _ _ E) as [Em Es].
  unfold Held.one_item. rewrite Em, Es.
  apply one_item_usage, one_item_generation, H.
Qed.

Lemma one_item_run (w : bool) (samples : list sample)
    (g g' : globals) (p p' : Serial.port) :
  Held.one_item g -> run w samples g p = (inr g', p') -> Held.one_item g'.
Proof.
  revert g p. induction samples as [|c rest IH]; intros g p H.
  - cbn. intro R. now injection R as <- _.
  - cbn [run]. unfold Serial.bind.
    destruct (tick w c g p) as [[e|g1] p1] eqn:T; [discriminate|].
    apply IH. exact (one_item_tick _ _ _ _ _ _ T H).
Qed.

End Hand.

(** ** The exceptions of a pass *)

Section Raises.

Import controller.

Lemma int_of_float_raises (x : float) (e : Py.exn) :
  Py.int_of_float x = inl e -> e = Py.ValueError \/ e = Py.OverflowError.
Proof.
  unfold Py.int_of_float.
  destruct (Prim2SF x) as [s|s| |s m ex]; intro H;
    try discriminate H; injection H as <-; auto.
Qed.

Lemma trigger_velocity_raises (max : Z) (df db : bool) (rt lt : float)
    (e : Py.exn) :
  trigger_velocity max df db rt lt = inl e ->
  e = Py.ValueError \/ e = Py.OverflowError.
Proof.
  unfold trigger_velocity, cf.apply_forward_velocity,
    cf.apply_backward_velocity.
  destruct df; [|destruct db; [|discriminate]];
    destruct (Py.int_of_float _) as [e'|z] eqn:E; cbn [try_bind];
    intro H; try discriminate H; injection H as <-;
    exact (int_of_float_raises _ _ E).
Qed.

Lemma item_effects_raises (df db : bool) (rt lt now : float) (g : globals)
    (e : Py.exn) :
  Stage.time_bound g ->
  item_effects df db rt lt now g = inl e ->
  e = Py.ValueError \/ e = Py.OverflowError.
Proof.
  unfold Stage.time_bound, item_effects, load_time_item_used.
  intros B H.
  destruct (used_mushroom g || used_star g) eqn:U.
  - destruct (time_item_used g) as [t|]; [|exfalso; exact (B eq_refl eq_refl)].
    cbn [try_bind] in H.
    repeat match type of H with
      | context [if ?b then _ else _] => destruct b
      | context [try_bind ?r _] =>
          let E := fresh "E" in destruct r eqn:E; cbn [try_bind] in H
      end; try discriminate H.
    injection H as <-. eapply trigger_velocity_raises; eassumption.
  - destruct (trigger_velocity _ _ _ _ _) as [e'|v] eqn:E;
      cbn [try_bind] in H; [|discriminate].
    injection H as <-. eapply trigger_velocity_raises; eassumption.
Qed.

Lemma bytearray_raises (items : list Py.value) (e : Py.exn) :
  Py.bytearray items = inl e -> e = Py.TypeError \/ e = Py.ValueError.
Proof.
  induction items as [|[z|f] items IH]; cbn [Py.bytearray]; intro H.
  - discriminate.
  - destruct ((0 <=? z) && (z <? 256)).
    + destruct (Py.bytearray items); [|discriminate].
      injection H as <-. now apply IH.
    + injection H as <-. now right.
  - injection H as <-. now left.
Qed.

Lemma drive_packet_raises (c : sample) (g : globals) (b : Z)
    (e : Py.exn) :
  Stage.time_bound g ->
  Stage.drive_packet c g b = inl e ->
  e = Py.ValueError \/ e = Py.OverflowError \/ e = Py.TypeError.
Proof.
  intros B. unfold Stage.drive_packet.
  destruct (poll_triggers c) as [df db].
  destruct (item_effects _ _ _ _ _ _) as [e'|[v g1]] eqn:E;
    cbn [try_bind].
  { intro H. injection H as <-.
    destruct (item_effects_raises _ _ _ _ _ _ _
                (time_bound_after_items c g b B) E); auto. }
  destruct (velocity_bytes v) as [e'|vb] eqn:V; cbn [try_bind].
  { unfold velocity_bytes, Py.floordiv, Py.modulo in V. cbn in V.
    destruct v; discriminate V. }
  destruct (cf.apply_turning_radius _ _ _ _) as [e'|rb] eqn:R;
    cbn [try_bind].
  { intro H. injection H as <-.
    unfold cf.apply_turning_radius in R.
    destruct (_ =? 0)%float; [discriminate|].
    destruct (cf.turning_radius _ _ _ _) as [e2|r] eqn:T;
      cbn [try_bind] in R; [|discriminate].
    injection R as <-. unfold cf.turning_radius in T.
    destruct (0 <? _)%float;
      destruct (int_of_float_raises _ _ T); auto. }
  destruct (Py.bytearray _) as [e'|pk] eqn:A; cbn [try_bind];
    [|discriminate].
  intro H. injection H as <-.
  destruct (bytearray_raises _ _ A); auto.
Qed.

Lemma tick_raises (w : bool) (c : sample) (g : globals)
    (p p' : Serial.port) (e : Py.exn) :
  Stage.time_bound g ->
  tick w c g p = (inl e, p') ->
  e = Py.NameError "cc" \/ e = Py.IndexError \/ e = Py.ValueError
  \/ e = Py.OverflowError \/ e = Py.TypeError.
Proof.
  intro B. destruct w.
  - rewrite tick_with_wobble. intro H. injection H as <- _. auto.
  - rewrite tick_without_wobble.
    destruct (firstn 1 (hd [] (Serial.rx p))) as [|b more].
    + intro H. injection H as <- _. auto.
    + destruct (Stage.drive_packet c g b) as [e'|[pk g1]] eqn:D;
        [|discriminate].
      intro H. injection H as <- _.
      destruct (drive_packet_raises _ _ _ _ B D) as [|[|]]; auto.
Qed.

(** From a state with the time of use bound, the exceptions that can
    end a series of passes: [time_item_used] is never read unbound. *)
Lemma run_raises_kinds (w : bool) (samples : list sample) (g : globals)
    (p p' : Serial.port) (e : Py.exn) :
  Stage.time_bound g ->
  run w samples g p = (inl e, p') ->
  (e = Py.NameError "cc" /\ w = true)
  \/ (w = false
      /\ (e = Py.IndexError \/ e = Py.ValueError
          \/ e = Py.OverflowError \/ e = Py.TypeError)).
Proof.
  revert g p. induction samples as [|c rest IH]; intros g p B.
  - discriminate.
  - cbn [run]. unfold Serial.bind.
    destruct (tick w c g p) as [[e'|g1] p1] eqn:T.
    + intro H. injection H as <- _.
      destruct w.
      * rewrite tick_with_wobble in T. injection T as <- _. auto.
      * right. split; [reflexivity|].
        destruct (tick_raises _ _ _ _ _ _ B T) as [N|H]; [|exact H].
        rewrite tick_without_wobble in T.
        destruct (firstn 1 (hd [] (Serial.rx p))) as [|b more].
        { injection T as <- _. auto. }
        destruct (Stage.drive_packet c g b) as [e''|[pk g1]] eqn:D;
          [|discriminate].
        injection T as <- _.
        destruct (drive_packet_raises _ _ _ _ B D) as [|[|]]; auto.
    + intro H. apply (IH g1 p1); [|exact H].
      exact (time_bound_tick _ _ _ _ _ _ T B).
Qed.

End Raises.

(** ** Left and right *)

Section Mirror.

Lemma abs_opp (s : float) : abs (- s) = abs s.
Proof.
  apply Prim2SF_inj. rewrite !abs_spec, opp_spec.
  now destruct (Prim2SF s).
Qed.

Lemma ltb_zero_opp (s : float) (m : positive) (e : Z) :
  Prim2SF (abs s) = S754_finite false m e ->
  (0 <? - s)%float = negb (0 <? s)%float.
Proof.
  rewrite abs_spec, !ltb_spec, opp_spec.
  destruct (Prim2SF s) as [?|?| |[|] m' e']; try discriminate;
    intros _; reflexivity.
Qed.

(** X1.  Left and right are mirror images: for a stick magnitude
    between the threshold and 1, pushing the stick the other way by
    the same amount gives the opposite radius. *)
Theorem turning_radius_mirror (s : float) :
  (cc.THRESHOLD <=? abs s)%float = true ->
  (abs s <=? 1)%float = true ->
  exists r,
    cf.turning_radius s cc.THRESHOLD cc.MIN_RADIUS cc.MAX_RADIUS = inr r
    /\ cf.turning_radius (- s) cc.THRESHOLD cc.MIN_RADIUS cc.MAX_RADIUS
       = inr (- r)
    /\ cf.apply_turning_radius (- s) cc.THRESHOLD cc.MIN_RADIUS
         cc.MAX_RADIUS
       = inr (cf.byte_pair (- r)).
Proof.
  intros L U.
  destruct (magnitude_in_range _ L U) as (m & e & E & _ & B).
  destruct (radius_of_steer s m e E B) as [_ R].
  assert (E' : Prim2SF (abs (- s)) = S754_finite false m e)
    by now rewrite abs_opp.
  destruct (radius_of_steer (- s) m e E' B) as [Z' R'].
  rewrite abs_opp in R'. rewrite (ltb_zero_opp s m e E) in R'.
  eexists. split; [exact R|].
  assert (R2 : cf.turning_radius (- s) cc.THRESHOLD cc.MIN_RADIUS
                 cc.MAX_RADIUS
               = inr (- (if (0 <? s)%float
                         then - Radius.magnitude (SFVal.SFV (Prim2SF (abs s)))
                         else Radius.magnitude (SFVal.SFV (Prim2SF (abs s)))))).
  { rewrite R'. destruct (0 <? s)%float; cbn [negb]; f_equal; lia. }
  split; [exact R2|].
  unfold cf.apply_turning_radius. now rewrite Z', R2.
Qed.

Lemma turning_radius_mirror_witness :
  exists r,
    cf.turning_radius 0.5 cc.THRESHOLD cc.MIN_RADIUS cc.MAX_RADIUS = inr r
    /\ cf.turning_radius (- 0.5) cc.THRESHOLD cc.MIN_RADIUS cc.MAX_RADIUS
       = inr (- r)
    /\ cf.apply_turning_radius (- 0.5) cc.THRESHOLD cc.MIN_RADIUS
         cc.MAX_RADIUS
       = inr (cf.byte_pair (- r)).
Proof. exact (turning_radius_mirror 0.5 eq_refl eq_refl). Defined.

End Mirror.

(** ** Passes that return *)

Section Survive.

Import controller.

Lemma velocity_bytes_float (f : float) :
  exists a b, velocity_bytes (Py.Float f) = inr [Py.Float a; Py.Float b].
Proof.
  unfold velocity_bytes, Py.floordiv, Py.modulo.
  change (256 =? 0) with false. cbn [try_bind app]. eauto.
Qed.

Lemma tick_returns_int (c : sample) (g g' : globals) (p p' : Serial.port) :
  tick false c g p = (inr g', p') ->
  exists b v,
    item_effects (fst (poll_triggers c)) (snd (poll_triggers c))
      (axis5 c) (axis2 c) (time_at_effects c) (Stage.after_items c g b)
    = inr (Py.Int v, g').
Proof.
  rewrite tick_without_wobble.
  destruct (hd [] (Serial.rx p)) as [|b more] eqn:R; cbn [firstn];
    [discriminate|].
  destruct (Stage.drive_packet c g b) as [e|[packet g1]] eqn:D;
    [discriminate|].
  intro H. injection H as <- _.
  unfold Stage.drive_packet in D.
  destruct (poll_triggers c) as [df db]. cbn [fst snd].
  destruct (item_effects _ _ _ _ _ _) as [e|[v g2]] eqn:E;
    [discriminate|].
  cbn [try_bind] in D.
  destruct v as [z|f].
  - destruct (velocity_bytes _); [discriminate|]. cbn [try_bind] in D.
    destruct (cf.apply_turning_radius _ _ _ _); [discriminate|].
    cbn [try_bind] in D.
    destruct (Py.bytearray _); [discriminate|]. cbn [try_bind] in D.
    injection D as _ <-. now exists b, z.
  - exfalso. destruct (velocity_bytes_float f) as (x & y & V).
    rewrite V in D. cbn [try_bind] in D.
    destruct (cf.apply_turning_radius _ _ _ _); [discriminate|].
    cbn in D. discriminate D.
Qed.

Lemma item_effects_int (df db : bool) (rt lt now : float)
    (g g' : globals) (v : Z) :
  item_effects df db rt lt now g = inr (Py.Int v, g') ->
  exists t, g' = set_elapsed_time t g.
Proof.
  unfold item_effects, load_time_item_used. intro H.
  repeat match type of H with
    | context [if ?b then _ else _] => destruct b
    | context [try_bind ?r _] =>
        let E := fresh "E" in destruct r eqn:E; cbn [try_bind] in H
    | context [match ?o with Some _ => _ | None => _ end] =>
        let E := fresh "E" in destruct o eqn:E
    end;
    try discriminate H; injection H as _ <-; eauto.
Qed.

Lemma used_after_items (c : sample) (g : globals) (b : Z) :
  Bool.le (used_mushroom g) (used_mushroom (Stage.after_items c g b))
  /\ Bool.le (used_star g) (used_star (Stage.after_items c g b)).
Proof.
  unfold Stage.after_items, item_usage, item_generation.
  destruct (Py.truthy _), (random_choice c), (button0 c),
    (has_mushroom g) eqn:Hm, (has_star g) eqn:Hs,
    (used_mushroom g) eqn:Um, (used_star g) eqn:Us;
    cbn; rewrite ?Hm, ?Hs, ?Um, ?Us; cbn; rewrite ?Hm, ?Hs, ?Um, ?Us;
    cbn; auto.
Qed.

Lemma used_tick (w : bool) (c : sample) (g g' : globals)
    (p p' : Serial.port) :
  tick w c g p = (inr g', p') ->
  Bool.le (used_mushroom g) (used_mushroom g')
  /\ Bool.le (used_star g) (used_star g').
Proof.
  destruct w; [rewrite tick_with_wobble; discriminate|].
  intro T. destruct (tick_returns_int _ _ _ _ _ T) as (b & v & E).
  destruct (item_effects_int _ _ _ _ _ _ _ _ E) as [t ->].
  cbn [set_elapsed_time used_mushroom used_star].
  apply used_after_items.
Qed.

Lemma bool_le_trans (a b c : bool) : Bool.le a b -> Bool.le b c -> Bool.le a c.
Proof. destruct a, b, c; cbn; auto. Qed.

(** X2.  Through any series of passes that all return, a mushroom or
    a star once in use stays in use: the flags [used_mushroom] and
    [used_star] are never cleared in a run that goes on, since a pass
    returns only with an int velocity, and the two branches that clear
    a flag leave the float [0.0]. *)
Theorem run_never_ends_an_effect (w : bool) (samples : list sample)
    (g g' : globals) (p p' : Serial.port) :
  run w samples g p = (inr g', p') ->
  Bool.le (used_mushroom g) (used_mushroom g')
  /\ Bool.le (used_star g) (used_star g').
Proof.
  revert g p. induction samples as [|c rest IH]; intros g p.
  - cbn. intro R. injection R as <- _.
    split; destruct (_ g); cbn; auto.
  - cbn [run]. unfold Serial.bind.
    destruct (tick w c g p) as [[e|g1] p1] eqn:T; [discriminate|].
    intro R. destruct (used_tick _ _ _ _ _ _ T) as [A1 A2].
    destruct (IH _ _ R) as [B1 B2].
    split; eapply bool_le_trans; eassumption.
Qed.

Lemma run_never_ends_an_effect_witness :
  Bool.le
    (used_mushroom (mkGlobals false false true false 1.4 (Some 100%float)))
    (used_mushroom (mkGlobals false false true false 1.5 (Some 100%float)))
  /\ Bool.le
       (used_star (mkGlobals false false true false 1.4 (Some 100%float)))
       (used_star (mkGlobals false false true false 1.5 (Some 100%float))).
Proof.
  exact (run_never_ends_an_effect false
           [mkSample 0 1 (-1) false cc.mushroom 0 101.5]
           (mkGlobals false false true false 1.4 (Some 100%float))
           (mkGlobals false false true false 1.5 (Some 100%float))
           (Serial.mkPort [[0]] [])
           (Serial.mkPort []
              [Serial.Write cc.POLL_BUMPERS_AND_DROPS; Serial.Read 1 [0];
               Serial.Write [137; 1; 244; 128; 0]])
           eq_refl).
Defined.

End Survive.

Section Served.

Import controller.

Lemma polls_app (a b : list Serial.event) :
  Trace.polls (a ++ b) = (Trace.polls a + Trace.polls b)%nat.
Proof. unfold Trace.polls. now rewrite filter_app, length_app. Qed.

Lemma reads_app (a b : list Serial.event) :
  Trace.reads (a ++ b) = (Trace.reads a + Trace.reads b)%nat.
Proof. unfold Trace.reads. now rewrite filter_app, length_app. Qed.

Lemma drives_app (a b : list Serial.event) :
  Trace.drives (a ++ b) = (Trace.drives a + Trace.drives b)%nat.
Proof. unfold Trace.drives. now rewrite filter_app, length_app. Qed.

(** The port traffic of a series of passes that all return: per pass
    one poll, one read and one drive command. *)
Lemma run_trace (w : bool) (samples : list sample) (g g' : globals)
    (p p' : Serial.port) :
  run w samples g p = (inr g', p') ->
  exists new,
    Serial.log p' = Serial.log p ++ new
    /\ Trace.polls new = List.length samples
    /\ Trace.reads new = List.length samples
    /\ Trace.drives new = List.length samples
    /\ List.length new = (3 * List.length samples)%nat.
Proof.
  revert g p. induction samples as [|c rest IH]; intros g p.
  - cbn. intro R. injection R as _ <-. exists [].
    now rewrite app_nil_r.
  - cbn [run]. unfold Serial.bind.
    destruct (tick w c g p) as [[e|g1] p1] eqn:T; [discriminate|].
    intro R. destruct (IH _ _ R) as (new & L & P & Rd & D & N).
    destruct (returning_pass_drives_once _ _ _ _ _ _ T)
      as (b & vh & vl & rh & rl & L1 & _).
    eexists. split; [rewrite L, L1, <- app_assoc; reflexivity|].
    rewrite polls_app, reads_app, drives_app, length_app, P, Rd, D, N.
    cbn [List.length]. repeat split; try lia.
Qed.

End Served.

(** ** The events of the loop *)

Section Events.

Import controller loop.

Lemma handle_all_quiet (evs : list event) (d : connected)
    (p : Serial.port) :
  forallb quiet evs = true ->
  handle_all evs d p = (inr (plugged evs d), p).
Proof.
  revert d. induction evs as [|ev evs IH]; intros d Q; [reflexivity|].
  cbn [forallb] in Q. apply andb_prop in Q as [Q1 Q2].
  cbn [handle_all plugged fold_left]. unfold bind.
  destruct ev; try discriminate Q1; cbn [handle ret]; now apply IH.
Qed.

Lemma handle_all_app (pre post : list event) (d : connected)
    (p : Serial.port) :
  forallb quiet pre = true ->
  handle_all (pre ++ post) d p = handle_all post (plugged pre d) p.
Proof.
  revert d. induction pre as [|ev pre IH]; intros d Q; [reflexivity|].
  cbn [forallb] in Q. apply andb_prop in Q as [Q1 Q2].
  cbn [app handle_all plugged fold_left]. unfold bind.
  destruct ev; try discriminate Q1; cbn [handle ret]; now apply IH.
Qed.

(** X3.  A [QUIT] event ends the process with [sys.exit()] right after
    the stop command: whatever events were still pending and whatever
    controllers are connected, nothing else reaches the port. *)
Theorem quit_stops_and_exits (w : bool) (pre post : list event)
    (pads : Z -> controller.sample)
    (st : connected * controller.globals) (more : list turn)
    (p : Serial.port) :
  forallb quiet pre = true ->
  iteration w (mkTurn (pre ++ QUIT :: post) pads) st p
  = (inl SystemExit, stopped p)
  /\ main_loop w (mkTurn (pre ++ QUIT :: post) pads :: more) st p
     = (inl SystemExit, stopped p).
Proof.
  intro Q.
  assert (I : iteration w (mkTurn (pre ++ QUIT :: post) pads) st p
              = (inl SystemExit, stopped p)).
  { unfold iteration. cbn [events]. unfold bind at 1.
    rewrite handle_all_app by exact Q. reflexivity. }
  split; [exact I|].
  cbn [main_loop]. unfold bind at 1. now rewrite I.
Qed.

Lemma quit_stops_and_exits_witness :
  let pads := fun _ : Z => mkSample 0 1 (-1) false cc.mushroom 0 0 in
  let turn := mkTurn ([JOYDEVICEADDED 0; OTHER] ++ QUIT :: [JOYDEVICEADDED 1])
                pads in
  iteration false turn ([], initial) (Serial.mkPort [[0]] [])
  = (inl SystemExit, Serial.mkPort [[0]] [Serial.Write cc.STOP])
  /\ main_loop false [turn; turn] ([], initial) (Serial.mkPort [[0]] [])
     = (inl SystemExit, Serial.mkPort [[0]] [Serial.Write cc.STOP]).
Proof.
  exact (quit_stops_and_exits false [JOYDEVICEADDED 0; OTHER]
           [JOYDEVICEADDED 1]
           (fun _ : Z => mkSample 0 1 (-1) false cc.mushroom 0 0)
           ([], initial)
           [mkTurn ([JOYDEVICEADDED 0; OTHER] ++ QUIT :: [JOYDEVICEADDED 1])
              (fun _ : Z => mkSample 0 1 (-1) false cc.mushroom 0 0)]
           (Serial.mkPort [[0]] []) eq_refl).
Defined.

(** X4.  A [JOYDEVICEREMOVED] event ends the process with an exception,
    after the stop command and before any pass: [KeyError] when the
    instance id is not connected, and otherwise, the controller once
    deleted, [NameError] for the name [printf]. *)
Theorem removal_stops_and_raises (w : bool) (pre post : list event)
    (instance_id : Z) (pads : Z -> controller.sample)
    (st : connected * controller.globals) (more : list turn)
    (p : Serial.port) :
  forallb quiet pre = true ->
  let turn := mkTurn (pre ++ JOYDEVICEREMOVED instance_id :: post) pads in
  let e := if existsb (Z.eqb instance_id) (plugged pre (fst st))
           then Uncaught (Py.NameError "printf")
           else KeyError instance_id in
  iteration w turn st p = (inl e, stopped p)
  /\ main_loop w (turn :: more) st p = (inl e, stopped p).
Proof.
  intros Q turn e.
  assert (I : iteration w turn st p = (inl e, stopped p)).
  { unfold iteration. subst turn. cbn [events]. unfold bind at 1.
    rewrite handle_all_app by exact Q.
    cbn [handle_all handle]. unfold bind, lift, delitem. cbn [Serial.write].
    subst e. destruct (existsb _ _); reflexivity. }
  split; [exact I|].
  cbn [main_loop]. unfold bind at 1. now rewrite I.
Qed.

Lemma removal_stops_and_raises_witness :
  let pads := fun _ : Z => mkSample 0 1 (-1) false cc.mushroom 0 0 in
  iteration false (mkTurn ([JOYDEVICEADDED 0] ++ [JOYDEVICEREMOVED 0]) pads)
    ([], initial) (Serial.mkPort [[0]] [])
  = (inl (Uncaught (Py.NameError "printf")),
     Serial.mkPort [[0]] [Serial.Write cc.STOP])
  /\ iteration false (mkTurn ([JOYDEVICEADDED 0] ++ [JOYDEVICEREMOVED 1]) pads)
       ([], initial) (Serial.mkPort [[0]] [])
     = (inl (KeyError 1), Serial.mkPort [[0]] [Serial.Write cc.STOP]).
Proof.
  split.
  - exact (proj1 (removal_stops_and_raises false [JOYDEVICEADDED 0] [] 0
                    (fun _ : Z => mkSample 0 1 (-1) false cc.mushroom 0 0)
                    ([], initial) [] (Serial.mkPort [[0]] []) eq_refl)).
  - exact (proj1 (removal_stops_and_raises false [JOYDEVICEADDED 0] [] 1
                    (fun _ : Z => mkSample 0 1 (-1) false cc.mushroom 0 0)
                    ([], initial) [] (Serial.mkPort [[0]] []) eq_refl)).
Defined.

End Events.

Section Loop.

Import controller loop.

Lemma existsb_In (k : Z) (d : connected) :
  existsb (Z.eqb k) d = true <-> In k d.
Proof.
  rewrite existsb_exists. split.
  - intros (x & I & E). apply Z.eqb_eq in E. now subst.
  - intro I. exists k. split; [exact I|apply Z.eqb_refl].
Qed.

Lemma setitem_NoDup (k : Z) (d : connected) :
  NoDup d -> NoDup (setitem k d).
Proof.
  intro N. unfold setitem. destruct (existsb (Z.eqb k) d) eqn:E; [exact N|].
  apply NoDup_app; [exact N|repeat constructor; intros []|].
  intros x I [<-|[]]. apply existsb_In in I. congruence.
Qed.

Lemma plugged_NoDup (evs : list event) (d : connected) :
  NoDup d -> NoDup (plugged evs d).
Proof.
  revert d. induction evs as [|ev evs IH]; intros d N; [exact N|].
  cbn [plugged fold_left]. apply IH. destruct ev; auto.
  now apply setitem_NoDup.
Qed.

Lemma handle_returns (ev : event) (d d' : connected)
    (p p' : Serial.port) :
  handle ev d p = (inr d', p') ->
  quiet ev = true /\ d' = plugged [ev] d /\ p' = p.
Proof.
  destruct ev; cbn [handle quiet plugged fold_left].
  - discriminate.
  - intro H. now injection H as <- <-.
  - unfold bind, lift, delitem, load_name. cbn [Serial.write].
    destruct (existsb _ _); discriminate.
  - intro H. now injection H as <- <-.
Qed.

Lemma handle_stops (ev : event) (d : connected) (p p' : Serial.port)
    (e : ending) :
  handle ev d p = (inl e, p') -> Ending.by_event e /\ p' = stopped p.
Proof.
  unfold Ending.by_event.
  destruct ev; cbn [handle]; try discriminate.
  - intro H. injection H as <- <-. auto.
  - unfold bind, lift, delitem, load_name. cbn [Serial.write].
    destruct (existsb _ _); intro H; injection H as <- <-; eauto.
Qed.

Lemma handle_all_returns (evs : list event) (d d' : connected)
    (p p' : Serial.port) :
  handle_all evs d p = (inr d', p') ->
  forallb quiet evs = true /\ d' = plugged evs d /\ p' = p.
Proof.
  revert d. induction evs as [|ev evs IH]; intro d.
  - cbn. intro H. now injection H as <- <-.
  - cbn [handle_all]. unfold bind.
    destruct (handle ev d p) as [[e|d1] p1] eqn:H1; [discriminate|].
    apply handle_returns in H1 as (Q & -> & ->).
    intro H. apply IH in H as (Q' & -> & ->).
    cbn [forallb]. now rewrite Q, Q'.
Qed.

Lemma handle_all_stops (evs : list event) (d : connected)
    (p p' : Serial.port) (e : ending) :
  handle_all evs d p = (inl e, p') -> Ending.by_event e /\ p' = stopped p.
Proof.
  revert d. induction evs as [|ev evs IH]; intro d; [discriminate|].
  cbn [handle_all]. unfold bind.
  destruct (handle ev d p) as [[e1|d1] p1] eqn:H1.
  - intro H. injection H as <- <-. exact (handle_stops _ _ _ _ _ H1).
  - apply handle_returns in H1 as (_ & _ & ->). apply IH.
Qed.

Lemma iteration_returns (w : bool) (t : turn) (d d' : connected)
    (g g' : globals) (p p' : Serial.port) :
  iteration w t (d, g) p = (inr (d', g'), p') ->
  forallb quiet (events t) = true
  /\ d' = plugged (events t) d
  /\ run w (map (pads t) d') g p = (inr g', p').
Proof.
  unfold iteration. cbn [fst snd]. unfold bind at 1.
  destruct (handle_all (events t) d p) as [[e|d1] p1] eqn:H;
    [discriminate|].
  apply handle_all_returns in H as (Q & -> & ->).
  unfold bind, lift.
  destruct (run w _ g p) as [[e|g1] p1] eqn:R; [discriminate|].
  intro K. injection K as <- <- <-. auto.
Qed.

Lemma iteration_ends (w : bool) (t : turn) (d : connected)
    (g : globals) (p p' : Serial.port) (e : ending) :
  iteration w t (d, g) p = (inl e, p') ->
  (Ending.by_event e /\ p' = stopped p)
  \/ exists e0,
      e = Uncaught e0
      /\ run w (map (pads t) (plugged (events t) d)) g p = (inl e0, p').
Proof.
  unfold iteration. cbn [fst snd]. unfold bind at 1.
  destruct (handle_all (events t) d p) as [[e1|d1] p1] eqn:H.
  - intro K. injection K as <- <-. left.
    exact (handle_all_stops _ _ _ _ _ H).
  - apply handle_all_returns in H as (Q & -> & ->).
    unfold bind, lift.
    destruct (run w _ g p) as [[e0|g1] p1] eqn:R; [|discriminate].
    intro K. injection K as <- <-. right. eauto.
Qed.

(** X5.  An iteration of the loop that completes has met only quiet
    events, and has served every connected controller, the ones
    connected in this iteration included: with [n] controllers in the
    dict it has sent [n] polls, read [n] answers and sent [n] drive
    commands, and nothing else. *)
Theorem iteration_serves_every_controller (w : bool) (t : turn)
    (st st' : connected * globals) (p p' : Serial.port) :
  iteration w t st p = (inr st', p') ->
  forallb quiet (events t) = true
  /\ fst st' = plugged (events t) (fst st)
  /\ (NoDup (fst st) -> NoDup (fst st'))
  /\ exists new,
      Serial.log p' = Serial.log p ++ new
      /\ Trace.polls new = List.length (fst st')
      /\ Trace.reads new = List.length (fst st')
      /\ Trace.drives new = List.length (fst st')
      /\ List.length new = (3 * List.length (fst st'))%nat.
Proof.
  destruct st as [d g], st' as [d' g']. intro I.
  apply iteration_returns in I as (Q & -> & R). cbn [fst].
  split; [exact Q|]. split; [reflexivity|].
  split; [apply plugged_NoDup|].
  apply run_trace in R. now rewrite length_map in R.
Qed.

Lemma iteration_serves_every_controller_witness :
  exists new,
    [Serial.Write cc.POLL_BUMPERS_AND_DROPS; Serial.Read 1 [0];
     Serial.Write [137; 1; 44; 128; 0];
     Serial.Write cc.POLL_BUMPERS_AND_DROPS; Serial.Read 1 [0];
     Serial.Write [137; 1; 44; 128; 0]]
    = [] ++ new
    /\ Trace.polls new = 2%nat
    /\ Trace.reads new = 2%nat
    /\ Trace.drives new = 2%nat
    /\ List.length new = 6%nat.
Proof.
  exact (proj2 (proj2 (proj2
           (iteration_serves_every_controller false
              (mkTurn [JOYDEVICEADDED 7; OTHER; JOYDEVICEADDED 3]
                 (fun _ : Z => mkSample 0 1 (-1) false cc.mushroom 0 0))
              ([], initial) ([7; 3], initial)
              (Serial.mkPort [[0]; [0]] [])
              (Serial.mkPort []
                 [Serial.Write cc.POLL_BUMPERS_AND_DROPS; Serial.Read 1 [0];
                  Serial.Write [137; 1; 44; 128; 0];
                  Serial.Write cc.POLL_BUMPERS_AND_DROPS; Serial.Read 1 [0];
                  Serial.Write [137; 1; 44; 128; 0]])
              eq_refl)))).
Defined.

End Loop.

(** ** The program *)

Section Program.

Import controller loop.

Lemma program_unfold (w : bool) (turns : list turn) (p : Serial.port) :
  program w turns p = main_loop w turns ([], initial) (started p).
Proof. reflexivity. Qed.

Lemma one_item_initial : Held.one_item initial.
Proof. reflexivity. Qed.

Lemma main_loop_invariants (w : bool) (turns : list turn)
    (d d' : connected) (g g' : globals) (p p' : Serial.port) :
  NoDup d -> Held.one_item g -> Stage.time_bound g ->
  main_loop w turns (d, g) p = (inr (d', g'), p') ->
  NoDup d' /\ Held.one_item g' /\ Stage.time_bound g'.
Proof.
  revert d g p. induction turns as [|t rest IH]; intros d g p N H B.
  - cbn. intro R. now injection R as <- <- _.
  - cbn [main_loop]. unfold bind at 1.
    destruct (iteration w t (d, g) p) as [[e|[d1 g1]] p1] eqn:I;
      [discriminate|].
    apply iteration_returns in I as (_ & -> & R).
    apply IH; [now apply plugged_NoDup| |].
    + exact (one_item_run _ _ _ _ _ _ H R).
    + exact (time_bound_run _ _ _ _ _ _ R B).
Qed.

Lemma run_ending (w : bool) (samples : list sample) (g : globals)
    (p p' : Serial.port) (e : Py.exn) :
  Stage.time_bound g ->
  run w samples g p = (inl e, p') -> Ending.by_pass w (Uncaught e).
Proof.
  intros B R.
  destruct (run_raises_kinds _ _ _ _ _ _ B R) as [[-> ->]|[-> K]];
    cbn; [reflexivity|].
  destruct K as [->|[->|[->| ->]]]; auto.
Qed.

Lemma main_loop_endings (w : bool) (turns : list turn) (d : connected)
    (g : globals) (p p' : Serial.port) (e : ending) :
  Held.one_item g -> Stage.time_bound g ->
  main_loop w turns (d, g) p = (inl e, p') ->
  (Ending.by_event e
   /\ exists l, Serial.log p' = l ++ [Serial.Write cc.STOP])
  \/ Ending.by_pass w e.
Proof.
  revert d g p. induction turns as [|t rest IH]; intros d g p H B;
    [discriminate|].
  cbn [main_loop]. unfold bind at 1.
  destruct (iteration w t (d, g) p) as [[e1|[d1 g1]] p1] eqn:I.
  - intro K. injection K as <- <-.
    apply iteration_ends in I as [[S ->]|(e0 & -> & R)].
    + left. split; [exact S|]. now exists (Serial.log p).
    + right. exact (run_ending _ _ _ _ _ _ B R).
  - apply iteration_returns in I as (_ & -> & R).
    apply IH; [|exact (time_bound_run _ _ _ _ _ _ R B)].
    exact (one_item_run _ _ _ _ _ _ H R).
Qed.

(** X6.  Whatever the events and the pads, a program that is still
    running holds at most one item, has the time of use bound as soon
    as an item is in use, and keeps each connected controller once in
    its dict. *)
Theorem program_invariants (w : bool) (turns : list turn)
    (d : connected) (g : globals) (p p' : Serial.port) :
  program w turns p = (inr (d, g), p') ->
  NoDup d /\ Held.one_item g /\ Stage.time_bound g.
Proof.
  rewrite program_unfold.
  apply main_loop_invariants;
    [constructor|exact one_item_initial|exact time_bound_initial].
Qed.

Lemma program_invariants_witness :
  NoDup [7; 3] /\ Held.one_item initial /\ Stage.time_bound initial.
Proof.
  exact (program_invariants false
           [mkTurn [JOYDEVICEADDED 7; OTHER; JOYDEVICEADDED 3]
              (fun _ : Z => mkSample 0 1 (-1) false cc.mushroom 0 0)]
           [7; 3] initial
           (Serial.mkPort [[0]; [0]] [])
           (Serial.mkPort []
              [Serial.Write cc.FULL_MODE; Serial.Sleep 1;
               Serial.Write cc.POLL_BUMPERS_AND_DROPS; Serial.Read 1 [0];
               Serial.Write [137; 1; 44; 128; 0];
               Serial.Write cc.POLL_BUMPERS_AND_DROPS; Serial.Read 1 [0];
               Serial.Write [137; 1; 44; 128; 0]])
           eq_refl).
Defined.

(** X7.  The ways the program ends.  An event ends it with
    [sys.exit()], with [KeyError] or with [NameError] for [printf],
    and then the stop command is the last thing sent; a pass ends it
    with [NameError] for [cc] when the collision check is on, and
    otherwise with [IndexError], [ValueError], [OverflowError] or
    [TypeError].  In particular [time_item_used] is never read before
    it is bound. *)
Theorem program_endings (w : bool) (turns : list turn)
    (p p' : Serial.port) (e : ending) :
  program w turns p = (inl e, p') ->
  (Ending.by_event e
   /\ exists l, Serial.log p' = l ++ [Serial.Write cc.STOP])
  \/ Ending.by_pass w e.
Proof.
  rewrite program_unfold.
  apply main_loop_endings;
    [exact one_item_initial|exact time_bound_initial].
Qed.

Lemma program_endings_witness :
  (Ending.by_event (Uncaught Py.TypeError)
   /\ exists l,
       [Serial.Write cc.FULL_MODE; Serial.Sleep 1;
        Serial.Write cc.POLL_BUMPERS_AND_DROPS; Serial.Read 1 [0]]
       = l ++ [Serial.Write cc.STOP])
  \/ Ending.by_pass false (Uncaught Py.TypeError).
Proof.
  exact (program_endings false
           [mkTurn [JOYDEVICEADDED 0]
              (fun _ : Z => mkSample 0 (-1) (-1) false cc.mushroom 0 0)]
           (Serial.mkPort [[0]] [])
           (Serial.mkPort []
              [Serial.Write cc.FULL_MODE; Serial.Sleep 1;
               Serial.Write cc.POLL_BUMPERS_AND_DROPS; Serial.Read 1 [0]])
           (Uncaught Py.TypeError) eq_refl).
Defined.

Lemma run_with_wobble (c : sample) (rest : list sample) (g : globals)
    (p : Serial.port) :
  run true (c :: rest) g p = (inl (Py.NameError "cc"), p).
Proof. apply run_raises, tick_with_wobble. Qed.

Lemma main_loop_with_wobble (turns : list turn) (g : globals)
    (st : connected * globals) (p p' : Serial.port) :
  main_loop true turns ([], g) p = (inr st, p') ->
  st = ([], g) /\ p' = p
  /\ Forall (fun t => plugged (events t) [] = []) turns.
Proof.
  revert p. induction turns as [|t rest IH]; intro p.
  - cbn. intro R. now injection R as <- <-.
  - cbn [main_loop]. unfold bind at 1.
    destruct (iteration true t ([], g) p) as [[e|[d1 g1]] p1] eqn:I;
      [discriminate|].
    apply iteration_returns in I as (_ & -> & R).
    destruct (plugged (events t) []) as [|k d] eqn:P.
    + cbn in R. injection R as <- <-. intro K.
      destruct (IH _ K) as (-> & -> & F). auto.
    + cbn [map] in R. rewrite run_with_wobble in R. discriminate.
Qed.

(** X8.  With the collision check enabled the program never drives:
    a run that is still going has had no controller connected, holds
    the initial variables, and has sent the mode command and nothing
    else. *)
Theorem wobble_program_serves_nobody (turns : list turn)
    (st : connected * globals) (p p' : Serial.port) :
  program true turns p = (inr st, p') ->
  st = ([], initial) /\ p' = started p
  /\ Forall (fun t => plugged (events t) [] = []) turns.
Proof.
  rewrite program_unfold. apply main_loop_with_wobble.
Qed.

Lemma wobble_program_serves_nobody_witness :
  (@nil Z, initial) = ([], initial)
  /\ Serial.mkPort [[0]] [Serial.Write cc.FULL_MODE; Serial.Sleep 1]
     = started (Serial.mkPort [[0]] [])
  /\ Forall (fun t => plugged (events t) [] = [])
       [mkTurn [OTHER]
          (fun _ : Z => mkSample 0 1 (-1) false cc.mushroom 0 0)].
Proof.
  exact (wobble_program_serves_nobody
           [mkTurn [OTHER]
              (fun _ : Z => mkSample 0 1 (-1) false cc.mushroom 0 0)]
           ([], initial) (Serial.mkPort [[0]] [])
           (Serial.mkPort [[0]] [Serial.Write cc.FULL_MODE; Serial.Sleep 1])
           eq_refl).
Defined.

End Program.

(** ** The trigger formula, operation by operation *)

Section Halving.

Import Round SFVal Radius.

Lemma Prim2SF_two :
  Prim2SF (Py.float_of_Z 2) = S754_finite false 4503599627370496 (-51).
Proof. reflexivity. Qed.

Lemma Prim2SF_300 :
  Prim2SF (Py.float_of_Z 300) = S754_finite false 5277655813324800 (-44).
Proof. reflexivity. Qed.

Lemma Prim2SF_425 :
  Prim2SF (Py.float_of_Z 425) = S754_finite false 7476679068876800 (-44).
Proof. reflexivity. Qed.

Lemma div_eucl_exact (a b q : Z) :
  0 < b -> a = q * b -> Z.div_eucl a b = (q, 0).
Proof.
  intros B ->. pose proof (Z.div_mul q b ltac:(lia)) as D.
  pose proof (Z.mod_mul q b ltac:(lia)) as M.
  unfold Z.div, Z.modulo in D, M.
  destruct (Z.div_eucl (q * b) b) as [q' r']. cbn in D, M. now subst.
Qed.

Lemma normal_digits (m : positive) (e : Z) :
  valid_binary (S754_finite false m e) = true -> -1074 < e ->
  Zdigits2 (Zpos m) = 53.
Proof.
  cbn [SpecFloat.valid_binary]. unfold bounded, canonical_mantissa.
  intros B G. apply andb_prop in B as [C _]. apply Z.eqb_eq in C.
  rewrite fexp_eq in C.
  change (Zpos (digits2_pos m)) with (Zdigits2 (Zpos m)) in C. lia.
Qed.

Lemma SFdiv_two_core (m : positive) (e : Z) :
  valid_binary (S754_finite false m e) = true -> -1000 <= e ->
  SFdiv_core_binary prec emax (Zpos m) e 4503599627370496 (-51)
  = (Zpos m~0, e - 2, loc_Exact).
Proof.
  intros V E. unfold SFdiv_core_binary.
  rewrite (normal_digits m e V) by lia.
  change (Zdigits2 4503599627370496) with 53. rewrite fexp_eq.
  replace (Z.min (Z.max (53 + e - (53 + -51) - 53) (-1074)) (e - -51))
    with (e - 2) by lia.
  replace (e - -51 - (e - 2)) with 53 by lia.
  rewrite (div_eucl_exact _ _ (Zpos m~0)); [reflexivity|lia|].
  rewrite Z.shiftl_mul_pow2 by lia.
  change (2 ^ 53) with (2 * 4503599627370496). lia.
Qed.

(** Halving a normal number is exact. *)
Lemma SFdiv_two_value (m : positive) (e : Z) :
  valid_binary (S754_finite false m e) = true -> -1000 <= e <= 0 ->
  nonneg (SF64div (S754_finite false m e)
            (S754_finite false 4503599627370496 (-51)))
  /\ 2 * SFV (SF64div (S754_finite false m e)
                (S754_finite false 4503599627370496 (-51)))
     = SFV (S754_finite false m e).
Proof.
  intros V E. unfold SF64div, SFdiv.
  rewrite (SFdiv_two_core m e V ltac:(lia)).
  cbn [xorb].
  pose proof (normal_digits m e V ltac:(lia)) as D.
  destruct (canonical_bounds m e V) as [E2 [U L]].
  specialize (L ltac:(lia)).
  assert (S1 : Zpos m~0 * 2 ^ (e - 2 + scale)
               = Zpos m * 2 ^ (e - 1 + scale)).
  { replace (e - 1 + scale) with (1 + (e - 2 + scale)) by lia.
    rewrite (Z.pow_add_r 2 1) by (unfold scale; lia).
    rewrite (Pos2Z.inj_xO m). change (2 ^ 1) with 2. ring. }
  assert (S2 : 2 * (Zpos m * 2 ^ (e - 1 + scale))
               = Zpos m * 2 ^ (e + scale)).
  { replace (e + scale) with (1 + (e - 1 + scale)) by lia.
    rewrite (Z.pow_add_r 2 1) by (unfold scale; lia).
    change (2 ^ 1) with 2. ring. }
  assert (D2 : Zdigits2 (Zpos m~0) = 54).
  { rewrite (Pos2Z.inj_xO m).
    replace (2 * Zpos m) with (Zpos m * 2 ^ 1) by (change (2 ^ 1) with 2; lia).
    rewrite Zdigits2_shift by lia. lia. }
  assert (BD : Zpos m * 2 ^ (e + scale) < 2 ^ (scale + 1000)).
  { assert (Zpos m * 2 ^ (e + scale) < 2 ^ 53 * 2 ^ (e + scale)).
    { pose proof (pow2_pos (e + scale) ltac:(unfold scale; lia)). nia. }
    rewrite <- Z.pow_add_r in H by (unfold scale; lia).
    assert (2 ^ (53 + (e + scale)) <= 2 ^ (scale + 1000))
      by (apply Z.pow_le_mono_r; unfold scale; lia).
    lia. }
  destruct (bra_value (m~0) (e - 2)) as [N Vl].
  - unfold scale; lia.
  - rewrite D2, fexp_eq. lia.
  - rewrite S1. lia.
  - split; [exact N|]. rewrite Vl, S1. cbn [SFV].
    rewrite rv_exact; [exact S2|lia|].
    rewrite cexp_scaled by (unfold scale; lia). rewrite D, fexp_eq. lia.
Qed.

End Halving.

Section Trigger.

Import Round SFVal Radius Velocity.

Lemma SFleb_neg (m1 m2 : positive) (e1 e2 : Z) :
  SFleb (S754_finite true m1 e1) (S754_finite true m2 e2)
  = SFleb (S754_finite false m2 e2) (S754_finite false m1 e1).
Proof.
  unfold SFleb, SFcompare. rewrite (Z.compare_antisym e1 e2).
  destruct (e1 ?= e2); cbn; try reflexivity.
  rewrite !Pos.compare_cont_spec. cbn.
  rewrite (Pos.compare_antisym m1 m2).
  destruct (m1 ?= m2)%positive; reflexivity.
Qed.

Lemma axis_in_range (t : float) :
  (abs t <=? 1)%float = true -> axis (Prim2SF t).
Proof.
  rewrite leb_spec, abs_spec. pose proof (Prim2SF_valid t) as V.
  pose proof (Prim2SF_valid 1) as V1. rewrite Prim2SF_one in *.
  destruct (Prim2SF t) as [s|s| |s m e]; cbn [axis SFabs];
    try discriminate; auto.
  intro U.
  change one with (SFV (S754_finite false 4503599627370496 (-52))).
  apply SFleb_value; auto.
Qed.

Lemma SFadd_neg_left (ma mb : positive) (ea eb : Z) :
  SF64add (S754_finite true mb eb) (S754_finite false ma ea)
  = SF64sub (S754_finite false ma ea) (S754_finite false mb eb).
Proof.
  unfold SF64add, SF64sub, SFadd, SFsub. cbn [cond_Zopp].
  rewrite (Z.min_comm eb ea). reflexivity.
Qed.

Lemma nonneg_finite (m : positive) (e : Z) :
  valid_binary (S754_finite false m e) = true ->
  nonneg (S754_finite false m e).
Proof.
  intro V. cbn. now destruct (canonical_bounds m e V) as [[? _] _].
Qed.

(** [trigger_value + 1]. *)
Lemma raised_spec (t : float) :
  axis (Prim2SF t) ->
  nonneg (Prim2SF (t + Py.float_of_Z 1))
  /\ SFV (Prim2SF (t + Py.float_of_Z 1)) = raised (Prim2SF t).
Proof.
  change (Py.float_of_Z 1) with 1%float. rewrite add_spec.
  pose proof (Prim2SF_valid t) as V. pose proof (Prim2SF_valid 1) as V1.
  pose proof one_bound as OB.
  assert (N1 : nonneg (Prim2SF 1)) by (rewrite Prim2SF_one; cbn; lia).
  destruct (Prim2SF t) as [s|s| |[|] m e]; cbn [axis raised];
    try contradiction.
  - intros _. change (SFV (S754_zero s)) with 0.
    rewrite Z.add_0_l, rv_one, Prim2SF_one. cbn [SF64add SFadd]. split; [cbn; lia|].
    destruct s; reflexivity.
  - intro A. rewrite Prim2SF_one. rewrite SFadd_neg_left.
    rewrite <- Prim2SF_one.
    assert (V' : valid_binary (S754_finite false m e) = true) by exact V.
    apply (SFsub_value (Prim2SF 1) (S754_finite false m e) N1
             (nonneg_finite m e V') V1 V' A).
    fold one. lia.
  - intro A.
    apply (SFadd_value (S754_finite false m e) (Prim2SF 1)
             (nonneg_finite m e V) N1 V V1).
    fold one. lia.
Qed.

Lemma one_pow : one = 2 ^ scale.
Proof. vm_compute. reflexivity. Qed.

Lemma rv_ulp : rv (2 ^ (scale - 53)) = 2 ^ (scale - 53).
Proof. vm_compute. reflexivity. Qed.

Lemma below_one (m : positive) (e : Z) :
  valid_binary (S754_finite false m e) = true ->
  SFV (S754_finite false m e) < one ->
  SFV (S754_finite false m e) <= one - 2 ^ (scale - 53).
Proof.
  intros V L. destruct (canonical_bounds m e V) as [E [U _]].
  rewrite one_pow in *. cbn [SFV] in *.
  pose proof (pow2_pos (scale - 53) ltac:(unfold scale; lia)) as PP.
  assert (S : 2 ^ scale = 2 ^ 53 * 2 ^ (scale - 53)).
  { rewrite <- Z.pow_add_r by (unfold scale; lia). f_equal; lia. }
  destruct (Z_le_gt_dec e (-54)) as [Lo|Hi].
  - assert (B1 : Zpos m * 2 ^ (e + scale) < 2 ^ 53 * 2 ^ (e + scale)).
    { pose proof (pow2_pos (e + scale) ltac:(unfold scale; lia)). nia. }
    rewrite <- Z.pow_add_r in B1 by (unfold scale; lia).
    assert (B2 : 2 ^ (53 + (e + scale)) <= 2 ^ (52 + (scale - 53)))
      by (apply Z.pow_le_mono_r; unfold scale; lia).
    rewrite (Z.pow_add_r 2 52) in B2 by (unfold scale; lia).
    rewrite S. change (2 ^ 53) with (2 * 2 ^ 52).
    pose proof (pow2_pos 52 ltac:(lia)). nia.
  - replace (e + scale) with ((e + 53) + (scale - 53)) in * by lia.
    rewrite (Z.pow_add_r 2 (e + 53)) in * by (unfold scale; lia).
    rewrite S in *.
    pose proof (pow2_pos (e + 53) ltac:(lia)).
    set (P := 2 ^ (scale - 53)) in *. set (K := 2 ^ (e + 53)) in *.
    assert (Zpos m * K < 2 ^ 53) by nia. nia.
Qed.

Lemma raised_bounds (r : spec_float) :
  valid_binary r = true -> axis r ->
  0 <= raised r <= 2 * one
  /\ (raised r = 0 \/ 2 ^ (scale - 53) <= raised r).
Proof.
  intros V A. pose proof rv_one as R1. pose proof rv_two as R2.
  pose proof one_pow as OP.
  assert (PL : 2 ^ (scale - 53) <= one).
  { rewrite OP. apply Z.pow_le_mono_r; unfold scale; lia. }
  pose proof (pow2_pos (scale - 53) ltac:(unfold scale; lia)) as PP.
  assert (K : forall v, 0 <= v <= one ->
                        0 <= rv (v + one) <= 2 * one
                        /\ 2 ^ (scale - 53) <= rv (v + one)).
  { intros v Hv.
    pose proof (rv_mono one (v + one) ltac:(lia)).
    pose proof (rv_mono (v + one) (2 * one) ltac:(lia)). lia. }
  destruct r as [s|s| |[|] m e]; cbn [axis raised] in *;
    try contradiction.
  - destruct (K 0 ltac:(lia)) as [K1 K2]. cbn [SFV]. auto.
  - pose proof (SFV_nonneg (S754_finite false m e)) as P.
    set (v := SFV (S754_finite false m e)) in *.
    destruct (Z.eq_dec v one) as [->|NE].
    + rewrite Z.sub_diag, rv_0. split; [lia|now left].
    + pose proof (below_one m e V ltac:(fold v; lia)) as BO. fold v in BO.
      pose proof (rv_mono (2 ^ (scale - 53)) (one - v) ltac:(lia)) as M1.
      rewrite rv_ulp in M1.
      pose proof (rv_mono (one - v) one ltac:(lia)) as M2.
      split; [lia|right; lia].
  - pose proof (SFV_nonneg (S754_finite false m e)) as P.
    destruct (K _ (conj P A)) as [K1 K2]. auto.
Qed.

(** [(trigger_value + 1) / 2]: the halving is exact. *)
Lemma halved (u : float) :
  nonneg (Prim2SF u) -> SFV (Prim2SF u) <= 2 * one ->
  SFV (Prim2SF u) = 0 \/ 2 ^ (scale - 53) <= SFV (Prim2SF u) ->
  nonneg (Prim2SF (u / Py.float_of_Z 2))
  /\ SFV (Prim2SF (u / Py.float_of_Z 2)) = SFV (Prim2SF u) / 2.
Proof.
  rewrite div_spec, Prim2SF_two. pose proof (Prim2SF_valid u) as V.
  destruct (Prim2SF u) as [[|]|s| |[|] m e]; cbn [nonneg];
    try contradiction.
  - intros _ _ _. split; [exact I|reflexivity].
  - intros E U [Z|L].
    { cbn [SFV] in Z.
      pose proof (pow2_pos (e + scale) ltac:(unfold scale; lia)). nia. }
    destruct (canonical_bounds m e V) as [_ [CU CL]].
    rewrite one_pow in U. cbn [SFV] in L, U.
    assert (E1 : -106 < e).
    { destruct (Z_lt_ge_dec (-106) e) as [|G]; [assumption|exfalso].
      assert (2 ^ (53 + (e + scale)) <= 2 ^ (scale - 53))
        by (apply Z.pow_le_mono_r; unfold scale in *; lia).
      rewrite Z.pow_add_r in H by (unfold scale; lia).
      pose proof (pow2_pos (e + scale) ltac:(unfold scale; lia)). nia. }
    specialize (CL ltac:(lia)).
    assert (E2 : e <= 0).
    { destruct (Z_le_gt_dec e 0) as [|G]; [assumption|exfalso].
      assert (2 ^ (1 + scale) <= 2 ^ (e + scale))
        by (apply Z.pow_le_mono_r; unfold scale; lia).
      rewrite (Z.pow_add_r 2 1) in H by (unfold scale; lia).
      change (2 ^ 1) with 2 in H.
      pose proof (pow2_pos scale ltac:(unfold scale; lia)). nia. }
    destruct (SFdiv_two_value m e V ltac:(lia)) as [N S].
    split; [exact N|]. rewrite <- S.
    apply Z.div_unique_exact; [lia|reflexivity].
Qed.

Lemma SFmul_comm (h : spec_float) (mc : positive) (ec : Z) :
  nonneg h ->
  SF64mul h (S754_finite false mc ec)
  = SF64mul (S754_finite false mc ec) h.
Proof.
  destruct h as [[|]|s| |[|] m e]; cbn [nonneg]; try contradiction;
    intros _; [reflexivity|].
  unfold SF64mul, SFmul. now rewrite Pos.mul_comm, Z.add_comm.
Qed.

Lemma ceiling_float (C : Z) :
  ceiling C ->
  0 < C <= 425
  /\ exists mc ec,
      Prim2SF (Py.float_of_Z C) = S754_finite false mc ec
      /\ -1000 <= ec <= 0 /\ Zpos mc = C * 2 ^ (- ec)
      /\ 2 ^ 52 <= Zpos mc.
Proof.
  intros [->| ->]; (split; [cbv; split; congruence|]).
  - exists 5277655813324800%positive, (-44).
    split; [exact Prim2SF_300|]. repeat split; try lia; discriminate.
  - exists 7476679068876800%positive, (-44).
    split; [exact Prim2SF_425|]. repeat split; try lia; discriminate.
Qed.

Lemma forward_value (C : Z) (t : float) :
  ceiling C -> axis (Prim2SF t) ->
  cf.apply_forward_velocity C t = inr (speed C (raised (Prim2SF t))).
Proof.
  intros HC A. destruct (ceiling_float C HC) as (BC & mc & ec & EC & H1 & H2 & H3).
  destruct (raised_spec t A) as [Nu Su].
  destruct (raised_bounds _ (Prim2SF_valid t) A) as [[B0 B1] B2].
  rewrite <- Su in B0, B1, B2.
  destruct (halved _ Nu B1 B2) as [Nh Sh].
  unfold cf.apply_forward_velocity.
  set (h := ((t + Py.float_of_Z 1) / Py.float_of_Z 2)%float) in *.
  assert (Ez : Prim2SF (h * Py.float_of_Z C)
               = SF64mul (S754_finite false mc ec) (Prim2SF h)).
  { rewrite mul_spec, EC. now apply SFmul_comm. }
  pose proof scaled_bound as SB.
  assert (H4 : C * SFV (Prim2SF h) < 2 ^ (scale + 1000)).
  { rewrite Sh.
    assert (SFV (Prim2SF (t + Py.float_of_Z 1)) / 2 <= one)
      by (apply Z.div_le_upper_bound; lia).
    assert (0 <= SFV (Prim2SF (t + Py.float_of_Z 1)) / 2)
      by (apply Z.div_pos; lia).
    pose proof threshold_le_one. nia. }
  destruct (SFmul_value _ _ _ (Prim2SF h) H1 H2 H3 Nh H4) as [Nz Sz].
  rewrite <- Ez in Nz, Sz.
  rewrite (int_of_float_pos _ Nz). unfold speed.
  now rewrite Sz, Sh, Su.
Qed.

Lemma speed_mono (C u u' : Z) :
  0 <= C -> 0 <= u <= u' -> speed C u <= speed C u'.
Proof.
  intros HC [U0 U1]. unfold speed.
  apply Z.div_le_mono; [apply pow2_pos; unfold scale; lia|].
  assert (0 <= u / 2) by (apply Z.div_pos; lia).
  assert (u / 2 <= u' / 2) by (apply Z.div_le_mono; lia).
  apply rv_mono. nia.
Qed.

Lemma speed_zero (C : Z) : speed C 0 = 0.
Proof.
  unfold speed. change (0 / 2) with 0. rewrite Z.mul_0_r, rv_0.
  reflexivity.
Qed.

Lemma speed_full (C : Z) : ceiling C -> speed C (2 * one) = C.
Proof. intros [->| ->]; vm_compute; reflexivity. Qed.

Lemma raised_mono (r r' : spec_float) :
  valid_binary r = true -> valid_binary r' = true ->
  axis r -> axis r' -> SFleb r r' = true ->
  raised r <= raised r'.
Proof.
  intros V V' A A' L. pose proof threshold_le_one as T.
  assert (K : forall v v', 0 <= v <= one -> 0 <= v' ->
                           rv (one - v) <= rv (v' + one)).
  { intros v v' Hv Hv'.
    pose proof (rv_mono (one - v) one ltac:(lia)).
    pose proof (rv_mono one (v' + one) ltac:(lia)). lia. }
  destruct r as [s|s| |[|] m e]; cbn [axis] in A; try contradiction;
    destruct r' as [s'|s'| |[|] m' e']; cbn [axis] in A';
    try contradiction; cbn [raised];
    try discriminate L;
    try pose proof (SFV_nonneg (S754_finite false m e));
    try pose proof (SFV_nonneg (S754_finite false m' e')).
  - reflexivity.
  - apply rv_mono. cbn [SFV] in *. lia.
  - change (SFV (S754_zero s')) with 0. apply K; lia.
  - rewrite SFleb_neg in L. apply SFleb_value in L; auto.
    apply rv_mono. lia.
  - apply K; lia.
  - apply SFleb_value in L; auto. apply rv_mono. lia.
Qed.

End Trigger.

Section Throttle.

Import Round SFVal Radius Velocity.

Lemma backward_forward (C : Z) (t : float) :
  cf.apply_backward_velocity C t
  = (v <~ cf.apply_forward_velocity C t ;; inr (- v)).
Proof. reflexivity. Qed.

Lemma forward_range (C : Z) (t : float) :
  ceiling C -> (abs t <=? 1)%float = true ->
  exists v, cf.apply_forward_velocity C t = inr v /\ 0 <= v <= C.
Proof.
  intros HC A. apply axis_in_range in A.
  destruct (ceiling_float C HC) as [BC _].
  destruct (raised_bounds _ (Prim2SF_valid t) A) as [[B0 B1] _].
  eexists. split; [now apply forward_value|].
  pose proof (speed_mono C 0 _ ltac:(lia) (conj (Z.le_refl 0) B0)) as L.
  pose proof (speed_mono C _ (2 * one) ltac:(lia) (conj B0 B1)) as U.
  rewrite speed_zero in L. rewrite (speed_full C HC) in U. lia.
Qed.

(** X9.  The trigger-proportional velocity, for the two ceilings that
    the loop uses and trigger readings within the range of the axis.
    The forward velocity is an int between 0 and the ceiling; it does
    not decrease when the trigger is pressed further; it is 0 for a
    released trigger and the ceiling for a full press; and the backward
    velocity for a reading is the opposite of the forward one. *)
Theorem velocity_follows_trigger (C : Z) (t t' : float) :
  ceiling C ->
  (abs t <=? 1)%float = true -> (abs t' <=? 1)%float = true ->
  (t <=? t')%float = true ->
  exists v v',
    cf.apply_forward_velocity C t = inr v
    /\ cf.apply_forward_velocity C t' = inr v'
    /\ cf.apply_backward_velocity C t = inr (- v)
    /\ cf.apply_backward_velocity C t' = inr (- v')
    /\ 0 <= v <= v' /\ v' <= C
    /\ cf.apply_forward_velocity C (-1) = inr 0
    /\ cf.apply_forward_velocity C 1 = inr C.
Proof.
  intros HC A A' L.
  apply axis_in_range in A. apply axis_in_range in A'.
  destruct (ceiling_float C HC) as [BC _].
  pose proof (forward_value C t HC A) as F.
  pose proof (forward_value C t' HC A') as F'.
  destruct (raised_bounds _ (Prim2SF_valid t) A) as [[B0 B1] _].
  destruct (raised_bounds _ (Prim2SF_valid t') A') as [[B0' B1'] _].
  rewrite leb_spec in L.
  pose proof (raised_mono _ _ (Prim2SF_valid t) (Prim2SF_valid t') A A' L)
    as M.
  exists (speed C (raised (Prim2SF t))), (speed C (raised (Prim2SF t'))).
  rewrite !backward_forward, F, F'. cbn [try_bind].
  repeat split.
  - pose proof (speed_mono C 0 _ ltac:(lia) (conj (Z.le_refl 0) B0)) as K.
    now rewrite speed_zero in K.
  - apply speed_mono; lia.
  - pose proof (speed_mono C _ (2 * one) ltac:(lia) (conj B0' B1')) as K.
    now rewrite (speed_full C HC) in K.
  - destruct HC as [->| ->]; reflexivity.
  - destruct HC as [->| ->]; reflexivity.
Qed.

Lemma velocity_follows_trigger_witness :
  exists v v',
    cf.apply_forward_velocity 300 0 = inr v
    /\ cf.apply_forward_velocity 300 0.5 = inr v'
    /\ cf.apply_backward_velocity 300 0 = inr (- v)
    /\ cf.apply_backward_velocity 300 0.5 = inr (- v')
    /\ 0 <= v <= v' /\ v' <= 300
    /\ cf.apply_forward_velocity 300 (-1) = inr 0
    /\ cf.apply_forward_velocity 300 1 = inr 300.
Proof.
  exact (velocity_follows_trigger 300 0 0.5 (or_introl eq_refl)
           eq_refl eq_refl eq_refl).
Defined.

End Throttle.

(** ** The limits of the drive command *)

Section Limits.

Import controller Round SFVal Radius Velocity.

Lemma item_effects_due (df db : bool) (rt lt now : float) (g : globals) :
  Expiry.due g = true ->
  exists g', item_effects df db rt lt now g = inr (Py.Float 0, g').
Proof.
  unfold Expiry.due, item_effects. intro D.
  destruct (used_mushroom g) eqn:Um; cbn [andb orb negb] in *.
  - rewrite orb_false_r in D. rewrite D, (ltb_asym _ _ D). eauto.
  - destruct (used_star g) eqn:Us; [|discriminate D].
    cbn [andb] in *. rewrite D, (ltb_asym _ _ D). eauto.
Qed.

(** X10.  The pass that finds a mushroom or a star past its duration
    ends the run.  The item-effects block takes its expiry branch and
    leaves the velocity at the float [0.0]; the drive statement then
    raises [TypeError], so the pass sends no drive command, and the
    base velocity policy never follows a boost. *)
Theorem expiry_ends_the_run (c : sample) (rest : list sample)
    (g : globals) (p : Serial.port) (b : Z) (more : list Z) :
  hd [] (Serial.rx p) = b :: more ->
  (abs (axis0 c) <=? 1)%float = true ->
  Expiry.due (Stage.after_items c g b) = true ->
  let p' := {| Serial.rx := tl (Serial.rx p);
               Serial.log :=
                 Serial.log p
                 ++ [Serial.Write cc.POLL_BUMPERS_AND_DROPS;
                     Serial.Read 1 [b]] |} in
  tick false c g p = (inl Py.TypeError, p')
  /\ run false (c :: rest) g p = (inl Py.TypeError, p')
  /\ Trace.drives (Serial.log p') = Trace.drives (Serial.log p).
Proof.
  intros R S D p'.
  destruct (item_effects_due (fst (poll_triggers c)) (snd (poll_triggers c))
              (axis5 c) (axis2 c) (time_at_effects c) _ D) as [g' E].
  destruct (radius_bytes_defined c S) as (hi & lo & A & _).
  assert (K : tick false c g p = (inl Py.TypeError, p')).
  { rewrite tick_without_wobble. unfold Stage.polled. rewrite R.
    cbn [firstn]. unfold Stage.drive_packet.
    destruct (poll_triggers c) as [df db]. cbn [fst snd] in E.
    rewrite E. cbn [try_bind]. rewrite A. reflexivity. }
  split; [exact K|]. split; [now apply run_raises|].
  subst p'. cbn [Serial.log]. unfold Trace.drives.
  rewrite filter_app, length_app. cbn. lia.
Qed.

Lemma expiry_ends_the_run_witness :
  tick false (mkSample 0 1 (-1) false cc.mushroom 0 101.75)
    (mkGlobals false false true false 1.625 (Some 100%float))
    (Serial.mkPort [[0]] [])
  = (inl Py.TypeError,
     Serial.mkPort []
       [Serial.Write cc.POLL_BUMPERS_AND_DROPS; Serial.Read 1 [0]]).
Proof.
  exact (proj1 (expiry_ends_the_run
                  (mkSample 0 1 (-1) false cc.mushroom 0 101.75) []
                  (mkGlobals false false true false 1.625 (Some 100%float))
                  (Serial.mkPort [[0]] []) 0 []
                  eq_refl eq_refl eq_refl)).
Defined.

Lemma trigger_velocity_range (C : Z) (df db : bool) (rt lt : float)
    (v : Z) :
  ceiling C ->
  (abs rt <=? 1)%float = true -> (abs lt <=? 1)%float = true ->
  trigger_velocity C df db rt lt = inr (Py.Int v) ->
  - C <= v <= C.
Proof.
  intros HC Ar Al. unfold trigger_velocity.
  destruct (forward_range C rt HC Ar) as (vr & Er & Br).
  destruct (forward_range C lt HC Al) as (vl & El & Bl).
  rewrite backward_forward, Er, El. cbn [try_bind].
  destruct df; [|destruct db]; intro H; try discriminate H;
    injection H as <-; lia.
Qed.

Lemma item_effects_range (df db : bool) (rt lt now : float)
    (g g' : globals) (v : Z) :
  (abs rt <=? 1)%float = true -> (abs lt <=? 1)%float = true ->
  item_effects df db rt lt now g = inr (Py.Int v, g') ->
  -425 <= v <= 500.
Proof.
  intros Ar Al. unfold item_effects, load_time_item_used.
  assert (T : forall C, ceiling C ->
                trigger_velocity C df db rt lt = inr (Py.Int v) ->
                -425 <= v <= 500).
  { intros C HC E.
    pose proof (trigger_velocity_range C df db rt lt v HC Ar Al E).
    destruct HC as [->| ->];
      unfold cc.MAX_VELOCITY_NO_ITEMS, cc.MAX_VELOCITY_W_STAR in H; lia. }
  intro H.
  repeat match type of H with
    | context [if ?b then _ else _] => destruct b
    | context [try_bind ?r _] =>
        let E := fresh "E" in destruct r eqn:E; cbn [try_bind] in H
    | context [match ?o with Some _ => _ | None => _ end] =>
        let E := fresh "E" in destruct o eqn:E
    end;
    try discriminate H; injection H as Hv _;
    try (rewrite <- Hv; unfold cc.MAX_VELOCITY_W_SHROOM; lia);
    subst;
    try (eapply (T cc.MAX_VELOCITY_W_STAR); [now right|eassumption]);
    try (eapply (T cc.MAX_VELOCITY_NO_ITEMS); [now left|eassumption]).
Qed.

Lemma radius_bytes_range (c : sample) :
  (abs (axis0 c) <=? 1)%float = true ->
  cf.apply_turning_radius (poll_sticks c) cc.THRESHOLD cc.MIN_RADIUS
    cc.MAX_RADIUS = inr [Py.Int 128; Py.Int 0]
  \/ exists r,
      cf.apply_turning_radius (poll_sticks c) cc.THRESHOLD cc.MIN_RADIUS
        cc.MAX_RADIUS = inr (cf.byte_pair r)
      /\ 119 <= Z.abs r <= 1700.
Proof.
  intro U. unfold poll_sticks.
  destruct (abs (axis0 c) <? cc.THRESHOLD)%float eqn:D.
  - left. reflexivity.
  - right. pose proof (leb_total _ cc.THRESHOLD _ U eq_refl D) as L.
    destruct (magnitude_in_range _ L U) as (m & e & E & B1 & B2).
    destruct (radius_of_steer _ m e E B2) as [Z0 R].
    rewrite E in R.
    set (v := SFV (S754_finite false m e)) in *.
    pose proof threshold_le_one as T.
    pose proof (magnitude_antitone threshold v ltac:(lia) ltac:(lia)) as A1.
    pose proof (magnitude_antitone v one ltac:(lia) ltac:(lia)) as A3.
    rewrite magnitude_at_threshold in A1. rewrite magnitude_at_one in A3.
    unfold cf.apply_turning_radius. rewrite Z0, R. cbn [try_bind].
    eexists. split; [reflexivity|].
    destruct (0 <? axis0 c)%float; lia.
Qed.

(** X11.  The drive commands of the passes stay within the limits of
    the robot.  A pass that returns, its three axes within their
    range, has sent after its poll one drive packet whose velocity
    field is the 16-bit pattern of a velocity between -425 and 500,
    and whose radius field is either the reserved pair [128, 0] or the
    pattern of a radius of magnitude between 119 and 1700. *)
Theorem drive_commands_within_limits (w : bool) (c : sample)
    (g g' : globals) (p p' : Serial.port) :
  (abs (axis0 c) <=? 1)%float = true ->
  (abs (axis5 c) <=? 1)%float = true ->
  (abs (axis2 c) <=? 1)%float = true ->
  tick w c g p = (inr g', p') ->
  exists b v radius_field,
    Serial.log p'
    = Serial.log p
      ++ [Serial.Write cc.POLL_BUMPERS_AND_DROPS; Serial.Read 1 [b];
          Serial.Write (137 :: Wire.encode16 v ++ radius_field)]
    /\ -425 <= v <= 500
    /\ (radius_field = [128; 0]
        \/ exists r,
            radius_field = Wire.encode16 r /\ 119 <= Z.abs r <= 1700).
Proof.
  intros A0 A5 A2.
  destruct w; [rewrite tick_with_wobble; discriminate|].
  rewrite tick_without_wobble. unfold Stage.polled.
  destruct (hd [] (Serial.rx p)) as [|b more]; cbn [firstn];
    [discriminate|].
  destruct (Stage.drive_packet c g b) as [e|[packet g1]] eqn:D;
    [discriminate|].
  intro H. injection H as _ <-.
  unfold Stage.drive_packet in D.
  destruct (poll_triggers c) as [df db].
  destruct (item_effects _ _ _ _ _ _) as [e|[[v|f] g2]] eqn:E;
    [discriminate| |].
  2:{ exfalso. cbn [try_bind] in D.
      destruct (velocity_bytes_float f) as (x & y & V).
      rewrite V in D. cbn [try_bind] in D.
      destruct (cf.apply_turning_radius _ _ _ _); [discriminate|].
      cbn in D. discriminate D. }
  pose proof (item_effects_range _ _ _ _ _ _ _ _ A5 A2 E) as Bv.
  cbn [try_bind] in D. rewrite velocity_bytes_int in D.
  cbn [try_bind] in D.
  assert (Sv : Wire.signed16 v) by (unfold Wire.signed16; lia).
  assert (Hb : forall z, 0 <= z mod 256 < 256)
    by (intro z; apply Z.mod_pos_bound; lia).
  exists b, v.
  destruct (radius_bytes_range c A0) as [R|(r & R & Br)];
    rewrite R in D; cbn [try_bind] in D.
  - exists [128; 0].
    change (cc.DRIVE ++ [Py.Int ((v / 256) mod 256); Py.Int (v mod 256)]
              ++ [Py.Int 128; Py.Int 0])
      with (map Py.Int [137; (v / 256) mod 256; v mod 256; 128; 0]) in D.
    rewrite bytearray_of_bytes in D
      by (repeat constructor; try apply Hb; lia).
    cbn [try_bind] in D. injection D as <- _.
    cbn [Serial.emit Serial.log]. rewrite <- app_assoc.
    rewrite (encode16_div_mod v Sv).
    split; [reflexivity|]. split; [exact Bv|now left].
  - exists (Wire.encode16 r).
    assert (Sr : Wire.signed16 r) by (unfold Wire.signed16; lia).
    change (cc.DRIVE ++ [Py.Int ((v / 256) mod 256); Py.Int (v mod 256)]
              ++ cf.byte_pair r)
      with (map Py.Int [137; (v / 256) mod 256; v mod 256;
                        (r / 256) mod 256; r mod 256]) in D.
    rewrite bytearray_of_bytes in D
      by (repeat constructor; try apply Hb; lia).
    cbn [try_bind] in D. injection D as <- _.
    cbn [Serial.emit Serial.log]. rewrite <- app_assoc.
    rewrite (encode16_div_mod v Sv), (encode16_div_mod r Sr).
    split; [reflexivity|]. split; [exact Bv|].
    right. exists r. now rewrite (encode16_div_mod r Sr).
Qed.

Lemma drive_commands_within_limits_witness :
  exists b v radius_field,
    [Serial.Write cc.POLL_BUMPERS_AND_DROPS; Serial.Read 1 [0];
     Serial.Write [137; 255; 106; 3; 201]]
    = [] ++ [Serial.Write cc.POLL_BUMPERS_AND_DROPS; Serial.Read 1 [b];
             Serial.Write (137 :: Wire.encode16 v ++ radius_field)]
    /\ -425 <= v <= 500
    /\ (radius_field = [128; 0]
        \/ exists r,
            radius_field = Wire.encode16 r /\ 119 <= Z.abs r <= 1700).
Proof.
  exact (drive_commands_within_limits false
           (mkSample (-0.5) (-1) 0 false cc.mushroom 0 0) initial initial
           (Serial.mkPort [[0]] [])
           (Serial.mkPort []
              [Serial.Write cc.POLL_BUMPERS_AND_DROPS; Serial.Read 1 [0];
               Serial.Write [137; 255; 106; 3; 201]])
           eq_refl eq_refl eq_refl eq_refl).
Defined.

End Limits.
